(** * fontParts: a shallow embedding of the base object model

    The development follows the layout of the Python sources:
    [fontParts.base.base] (exceptions, [BaseObject], [BaseDict],
    [TransformationMixin], [dynamicProperty], [interpolate]),
    [fontParts.objects.base.validators], [fontParts.base.point],
    [fontParts.base.segment], [fontParts.base.features] and
    [fontParts.base.font].  The embedding of the code comes first, the
    theorems about it follow. *)

From Stdlib Require Import ZArith List Bool Lia String Ascii.
From Stdlib Require Import Floats.
From stdpp Require Import base option list strings gmap pretty.

Set Warnings "-register-all".
Local Open Scope string_scope.
Local Open Scope Z_scope.

(** ** Exceptions and the result of a call *)

Module Errors.

(** The exceptions the modelled code can end in.  [FontPartsError] is the
    library's own ([fontParts.base.errors]); the others are Python's. *)
Inductive exn : Type :=
| FontPartsError (msg : string)
| AssertionError
| UnboundLocalError (var : string)
| ValueError (msg : string)
| TypeError (msg : string)
| AttributeError (msg : string)
| IndexError (msg : string)
| RecursionError.

(** A call either returns a value or raises. *)
Inductive result (A : Type) : Type :=
| Return (a : A)
| Raise (e : exn).
Arguments Return {A} a.
Arguments Raise {A} e.

#[export] Instance result_ret : MRet result := fun A a => Return a.
#[export] Instance result_bind : MBind result := fun A B k m =>
  match m with
  | Return a => k a
  | Raise e => Raise e
  end.

Definition returns {A : Type} (m : result A) : Prop :=
  exists a, m = Return a.

Definition raises_FontPartsError {A : Type} (m : result A) : Prop :=
  exists msg, m = Raise (FontPartsError msg).

End Errors.
Export Errors.

(** ** Python numbers *)

Module Numbers.

(** The arithmetic the geometry helpers use.  Python's [+], [-], [*] and
    [==] are looked up on the operands; the helpers are written once and
    run on whatever numbers they are given. *)
Class Number (T : Type) : Type := {
  zero : T;
  one : T;
  add : T -> T -> T;
  sub : T -> T -> T;
  mul : T -> T -> T;
  eqb : T -> T -> bool
}.

(** Python [int] (with [long]): unbounded, exact. *)
#[export] Instance PyInt : Number Z := {|
  zero := 0; one := 1;
  add := Z.add; sub := Z.sub; mul := Z.mul;
  eqb := Z.eqb
|}.

(** Python [float]: IEEE 754 binary64, round to nearest even. *)
#[export] Instance PyFloat : Number float := {|
  zero := 0%float; one := 1%float;
  add := PrimFloat.add; sub := PrimFloat.sub; mul := PrimFloat.mul;
  eqb := PrimFloat.eqb
|}.

End Numbers.
Export Numbers.

(** ** Python values *)

Module Values.

(** The values the validators and the attribute protocol are handed.
    The sources are Python 2: [int] is a machine integer, [long] is not an
    [int], [bool] is a subclass of [int], and [basestring] covers both
    [str] (bytes) and [unicode] (code points). *)
Inductive pyval : Type :=
| PNone
| PBool (b : bool)
| PInt (z : Z)
| PLong (z : Z)
| PFloat (f : float)
| PStr (s : string)
| PUnicode (cs : list N)
| PTuple (items : list pyval)
| PList (items : list pyval)
| PObject (className : string).

(** [type(value).__name__] *)
Definition type_name (value : pyval) : string :=
  match value with
  | PNone => "NoneType"
  | PBool _ => "bool"
  | PInt _ => "int"
  | PLong _ => "long"
  | PFloat _ => "float"
  | PStr _ => "str"
  | PUnicode _ => "unicode"
  | PTuple _ => "tuple"
  | PList _ => "list"
  | PObject c => c
  end.

(** [isinstance(value, basestring)] *)
Definition is_basestring (value : pyval) : bool :=
  match value with
  | PStr _ | PUnicode _ => true
  | _ => false
  end.

(** [isinstance(value, (tuple, list))] *)
Definition is_tuple_or_list (value : pyval) : bool :=
  match value with
  | PTuple _ | PList _ => true
  | _ => false
  end.

(** [isinstance(value, (int, float))]: a [bool] is an [int], a [long] is
    not. *)
Definition is_int_or_float (value : pyval) : bool :=
  match value with
  | PBool _ | PInt _ | PFloat _ => true
  | _ => false
  end.

(** The items a [for] loop over a sequence visits; [ord] is already
    applied to the characters of a string. *)
Definition ords (value : pyval) : list N :=
  match value with
  | PStr s => map N_of_ascii (list_ascii_of_string s)
  | PUnicode cs => cs
  | _ => []
  end.

Definition elements (value : pyval) : list pyval :=
  match value with
  | PTuple l | PList l => l
  | _ => []
  end.

(** [len(value)] for strings, tuples and lists. *)
Definition len (value : pyval) : Z :=
  match value with
  | PStr _ | PUnicode _ => Z.of_nat (length (ords value))
  | PTuple l | PList l => Z.of_nat (length l)
  | _ => 0
  end.

(** [float(z)] for an integer: the nearest binary64, ties to even. *)
Definition float_of_Z (z : Z) : float :=
  SF2Prim (binary_normalize prec emax z 0 false).

(** [float(v)] for the values that pass [is_int_or_float]. *)
Definition to_float (v : pyval) : pyval :=
  match v with
  | PBool b => PFloat (if b then 1%float else 0%float)
  | PInt z => PFloat (float_of_Z z)
  | other => other
  end.

Definition is_float (v : pyval) : bool :=
  match v with PFloat _ => true | _ => false end.

(** ["%r" % s] for a string (escapes left aside). *)
Definition repr_str (s : string) : string := "'" +:+ s +:+ "'".

End Values.
Export Values.

(** ** Objects, classes and attribute lookup *)

Module Objects.

(** A method body, already bound to its instance: it reads and updates
    the instance's [__dict__] and returns a value or raises. *)
Definition method : Type :=
  gmap string pyval -> list pyval -> result (gmap string pyval * pyval).

(** What a class body binds a name to. *)
Inductive attr : Type :=
| Method (m : method)
| Data (v : pyval).

Record class : Type := {
  __name__ : string;
  namespace : gmap string attr
}.

(** An instance: its class, the classes that one inherits from in method
    resolution order, and the instance's own attributes. *)
Record object : Type := {
  __class__ : class;
  bases : list class;
  __dict__ : gmap string pyval
}.

Definition with_dict (obj : object) (d : gmap string pyval) : object :=
  {| __class__ := __class__ obj; bases := bases obj; __dict__ := d |}.

(** Lookup along the method resolution order. *)
Fixpoint mro_lookup (mro : list class) (name : string) : option attr :=
  match mro with
  | [] => None
  | c :: rest =>
      match namespace c !! name with
      | Some a => Some a
      | None => mro_lookup rest name
      end
  end.

(** [getattr(obj, name, None)]: the instance's own attributes first,
    then the classes; a missing attribute gives the default [None]. *)
Definition getattr (obj : object) (name : string) : attr :=
  match __dict__ obj !! name with
  | Some v => Data v
  | None =>
      match mro_lookup (__class__ obj :: bases obj) name with
      | Some a => a
      | None => Data PNone
      end
  end.

(** [a is not None] *)
Definition is_not_None (a : attr) : bool :=
  match a with
  | Data PNone => false
  | _ => true
  end.

(** Calling [a] with [args] on the instance [obj]. *)
Definition call (a : attr) (obj : object) (args : list pyval)
  : result (object * pyval) :=
  match a with
  | Method m =>
      r ← m (__dict__ obj) args;
      mret (with_dict obj r.1, r.2)
  | Data v =>
      Raise (TypeError (repr_str (type_name v) +:+ " object is not callable"))
  end.

End Objects.
Export Objects.

(** ** [weakref] *)

Module weakref.

(** Objects are known by their identity; the heap is the set of objects
    that are still alive. *)
Definition oid : Type := nat.
Definition heap : Type := gset nat.

(** [weakref.ref(obj)]: a reference that does not keep [obj] alive. *)
Inductive ref : Type := Ref (target : oid).

#[global] Instance ref_eq_dec : EqDecision ref.
Proof. solve_decision. Defined.

(** Calling a weak reference gives the referent, or [None] once it is
    gone. *)
Definition deref (h : heap) (w : ref) : option oid :=
  match w with
  | Ref target => if decide (target ∈ h) then Some target else None
  end.

End weakref.

(** ** The objects a child is attached to *)

Module parents.

(** What the parent accessors walk through: which objects are alive, the
    glyph of a contour, the layer and the font of a glyph. *)
Record Parents : Type := {
  alive : weakref.heap;
  contour_glyph : weakref.oid -> option weakref.oid;
  glyph_layer : weakref.oid -> option weakref.oid;
  glyph_font : weakref.oid -> option weakref.oid
}.

(** [obj.name] where [obj] may be [None]. *)
Definition attribute (name : string) (f : weakref.oid -> option weakref.oid)
    (obj : option weakref.oid) : result (option weakref.oid) :=
  match obj with
  | Some o => mret (f o)
  | None =>
      Raise (AttributeError
               ("'NoneType' object has no attribute " +:+ repr_str name))
  end.

End parents.
Export parents.

(** ** External geometry: [fontTools.misc.transform] *)

Module transform.

Section Transform.
Context {T : Type} `{Number T}.

(** A transformation matrix as the API passes it around:
    [(xx, xy, yx, yy, dx, dy)]. *)
Definition matrix : Type := (T * T * T * T * T * T)%type.

Record Transform : Type := {
  xx : T; xy : T; yx : T; yy : T; dx : T; dy : T
}.

(** The call [Transform] makes of the six values of [matrix]. *)
Definition of_matrix (m : matrix) : Transform :=
  let '(a, b, c, d, e, f) := m in
  {| xx := a; xy := b; yx := c; yy := d; dx := e; dy := f |}.

(** [tuple(t)] *)
Definition to_matrix (t : Transform) : matrix :=
  (xx t, xy t, yx t, yy t, dx t, dy t).

(** [t.transformPoint((x, y))] is
    [(xx*x + yx*y + dx, xy*x + yy*y + dy)]. *)
Definition transformPoint (t : Transform) (p : T * T) : T * T :=
  let '(x, y) := p in
  (add (add (mul (xx t) x) (mul (yx t) y)) (dx t),
   add (add (mul (xy t) x) (mul (yy t) y)) (dy t)).

(** [Offset(x, y)] is [Transform(1, 0, 0, 1, x, y)]. *)
Definition Offset (x y : T) : Transform :=
  {| xx := one; xy := zero; yx := zero; yy := one; dx := x; dy := y |}.

(** [Identity] is [Transform()], the matrix [(1, 0, 0, 1, 0, 0)]. *)
Definition Identity : Transform :=
  {| xx := one; xy := zero; yx := zero; yy := one; dx := zero; dy := zero |}.

(** [t.transform(other)]: [other] first, then [t]. *)
Definition transform_ (t : Transform) (other : matrix) : Transform :=
  let '(xx1, xy1, yx1, yy1, dx1, dy1) := other in
  {| xx := add (mul xx1 (xx t)) (mul xy1 (yx t));
     xy := add (mul xx1 (xy t)) (mul xy1 (yy t));
     yx := add (mul yx1 (xx t)) (mul yy1 (yx t));
     yy := add (mul yx1 (xy t)) (mul yy1 (yy t));
     dx := add (add (mul (xx t) dx1) (mul (yx t) dy1)) (dx t);
     dy := add (add (mul (xy t) dx1) (mul (yy t) dy1)) (dy t) |}.

(** [t.scale(x, y)] is [t.transform((x, 0, 0, y, 0, 0))]. *)
Definition scale (t : Transform) (x y : T) : Transform :=
  transform_ t (x, zero, zero, y, zero, zero).

End Transform.
Arguments matrix T : clear implicits.
Arguments Transform T : clear implicits.

End transform.

(** ** [fontParts.base.normalizers] *)

Module normalizers.

Section Normalizers.
Context {T : Type}.

(** Modelled from the spec: [fontParts.base.normalizers] is not among the
    sources.  The glossary has a normalizer as a pure function that checks
    a caller-supplied value and coerces it into a canonical form; the
    values below are well formed by their type, so each normalizer hands
    its argument back. *)
Definition normalizeTransformationMatrix (value : transform.matrix T)
  : result (transform.matrix T) := mret value.

(** Modelled from the spec: see [normalizeTransformationMatrix]. *)
Definition normalizeCoordinateTuple (value : T * T) : result (T * T) :=
  mret value.

(** Modelled from the spec: see [normalizeTransformationMatrix]. *)
Definition normalizeTransformationOffset (value : T * T) : result (T * T) :=
  mret value.

(** Modelled from the spec: see [normalizeTransformationMatrix]. *)
Definition normalizeX (value : T) : result T := mret value.

(** Modelled from the spec: see [normalizeTransformationMatrix]. *)
Definition normalizeY (value : T) : result T := mret value.

(** Modelled from the spec: see [normalizeTransformationMatrix]; the
    scale is taken as the pair of its x and y factors. *)
Definition normalizeTransformationScale (value : T * T) : result (T * T) :=
  mret value.

End Normalizers.

End normalizers.

(** ** [fontParts.base.base] *)

Module Base.

Module BaseObject.

(** [BaseObject.raiseNotImplementedError], base.py line 91. *)
Definition raiseNotImplementedError (self : object) : result pyval :=
  Raise (FontPartsError
           ("The " +:+ __name__ (__class__ self)
            +:+ " subclass does not implement this method.")).

(** [BaseObject.naked], base.py line 111. *)
Definition naked (self : object) : result pyval :=
  raiseNotImplementedError self;; mret PNone.

End BaseObject.

Module BaseDict.

(** The part of a dictionary class that [items] goes through: the two
    class attributes and the [_items] hook, each as the class (or a
    subclass) defines it. *)
Record methods : Type := {
  keyNormalizer : option (pyval -> result pyval);
  valueNormalizer : option (pyval -> result pyval);
  _items : object -> result pyval
}.

(** [BaseDict] itself: no normalizers, and [_items] must be overridden
    (base.py lines 123, 124 and 161). *)
Definition base : methods := {|
  keyNormalizer := None;
  valueNormalizer := None;
  _items := fun self => BaseObject.raiseNotImplementedError self;; mret PNone
|}.

(** What a [for] loop over [value] visits. *)
Definition iterate (value : pyval) : result (list pyval) :=
  match value with
  | PTuple l | PList l => mret l
  | PStr s => mret (map (fun c => PStr (String c EmptyString)) (list_ascii_of_string s))
  | PUnicode cs => mret (map (fun c => PUnicode [c]) cs)
  | other =>
      Raise (TypeError (repr_str (type_name other) +:+ " object is not iterable"))
  end.

(** The target [(key, value)] of the comprehension in [items]. *)
Definition unpack_pair (item : pyval) : result (pyval * pyval) :=
  l ← iterate item;
  match l with
  | [key; value] => mret (key, value)
  | _ => Raise (ValueError "wrong number of values to unpack")
  end.

(** [BaseDict.items], base.py line 152.  The local [values] is bound only
    inside the [if]. *)
Definition items (c : methods) (self : object) : result pyval :=
  items ← _items c self;
  match keyNormalizer c, valueNormalizer c with
  | Some keyNormalizer, Some valueNormalizer =>
      l ← iterate items;
      values ← mapM (fun item =>
                       kv ← unpack_pair item;
                       key ← keyNormalizer kv.1;
                       value ← valueNormalizer kv.2;
                       mret (PTuple [key; value])) l;
      mret (PList values)
  | _, _ => Raise (UnboundLocalError "values")
  end.

End BaseDict.

Module TransformationMixin.

Section TransformationMixin.
Context {T : Type} `{Number T} {Self : Type}.

(** [==] on coordinate tuples. *)
Definition coord_eqb (a b : T * T) : bool :=
  eqb a.1 b.1 && eqb a.2 b.2.

(** [TransformationMixin.transformBy], base.py line 307.  [_transformBy]
    is the method the call [self._transformBy] resolves to. *)
Definition transformBy
    (_transformBy : Self -> transform.matrix T -> T * T -> T * T -> result Self)
    (self : Self) (matrix : transform.matrix T) (origin : option (T * T))
  : result Self :=
  matrix ← normalizers.normalizeTransformationMatrix matrix;
  let origin := match origin with None => (zero, zero) | Some o => o end in
  origin ← normalizers.normalizeCoordinateTuple origin;
  let originOffset :=
    if coord_eqb origin (zero, zero) then (zero, zero)
    else
      let t := transform.of_matrix matrix in
      let '(bx, by_) := origin in
      let '(ax, ay) := transform.transformPoint t (bx, by_) in
      (sub bx ax, sub by_ ay) in
  _transformBy self matrix origin originOffset.

(** [TransformationMixin._moveBy], base.py line 365.  [transformBy] is
    the method the call [self.transformBy] resolves to. *)
Definition _moveBy
    (transformBy : Self -> transform.matrix T -> option (T * T) -> result Self)
    (self : Self) (value : T * T) : result Self :=
  let '(x, y) := value in
  let t := transform.Offset x y in
  transformBy self (transform.to_matrix t) None.

(** [TransformationMixin.moveBy], base.py line 352. *)
Definition moveBy
    (_moveBy : Self -> T * T -> result Self)
    (self : Self) (value : T * T) : result Self :=
  value ← normalizers.normalizeTransformationOffset value;
  _moveBy self value.

(** [TransformationMixin._scaleBy], base.py line 401. *)
Definition _scaleBy
    (transformBy : Self -> transform.matrix T -> option (T * T) -> result Self)
    (self : Self) (value : T * T) (origin : T * T) : result Self :=
  let '(x, y) := value in
  let t := transform.scale transform.Identity x y in
  transformBy self (transform.to_matrix t) (Some origin).

(** [TransformationMixin.scaleBy], base.py line 381. *)
Definition scaleBy
    (_scaleBy : Self -> T * T -> T * T -> result Self)
    (self : Self) (value : T * T) (origin : option (T * T)) : result Self :=
  value ← normalizers.normalizeTransformationScale value;
  let origin := match origin with None => (zero, zero) | Some o => o end in
  origin ← normalizers.normalizeCoordinateTuple origin;
  _scaleBy self value origin.

End TransformationMixin.

End TransformationMixin.

Module dynamicProperty.

Record t : Type := {
  name : string;
  getterName : string;
  setterName : string
}.

(** [dynamicProperty.__init__], base.py line 574. *)
Definition __init__ (name : string) : t := {|
  name := name;
  getterName := "_get_" +:+ name;
  setterName := "_set_" +:+ name
|}.

(** [dynamicProperty.__get__], base.py line 580. *)
Definition __get__ (self : t) (obj : object) : result (object * pyval) :=
  let getter := getattr obj (getterName self) in
  if is_not_None getter then call getter obj []
  else Raise (FontPartsError ("no getter for " +:+ repr_str (name self))).

(** [dynamicProperty.__set__], base.py line 587. *)
Definition __set__ (self : t) (obj : object) (value : pyval) : result object :=
  let setter := getattr obj (setterName self) in
  if is_not_None setter then
    r ← call setter obj [value];
    mret r.1
  else Raise (FontPartsError ("no setter for " +:+ repr_str (name self))).

End dynamicProperty.


End Base.

(** ** [fontParts.objects.base.validators] *)

Module validators.

(** The loop of [validateIdentifier] over the code points of [value]. *)
Fixpoint validateIdentifier_chars (value : string) (cs : list N) : result unit :=
  match cs with
  | [] => mret ()
  | v :: rest =>
      if ((v <? 0x20) || (0x7E <? v))%N then
        Raise (FontPartsError
                 ("The identifier string (" +:+ value
                  +:+ ") contains a character out size of the range 0x20 - 0x7E."))
      else validateIdentifier_chars value rest
  end.

(** ["%r" % value] for a string value. *)
Definition repr (value : pyval) : string :=
  match value with
  | PStr s => repr_str s
  | PUnicode cs => "u" +:+ repr_str (string_of_list_ascii (map ascii_of_N cs))
  | other => type_name other
  end.

(** [validateIdentifier], validators.py line 60. *)
Definition validateIdentifier (value : pyval) : result pyval :=
  if negb (is_basestring value) then
    Raise (FontPartsError
             ("Identifiers must be strings, not " +:+ type_name value +:+ "."))
  else if (100 <? len value)%Z then
    Raise (FontPartsError
             ("The identifier string has a langth (" +:+ pretty (len value)
              +:+ ") greater than the maximum allowed (100)."))
  else
    validateIdentifier_chars (repr value) (ords value);;
    mret value.

(** The loop of [validateTransformationMatrix] over the items of
    [value]; the message names the type of [value] itself. *)
Fixpoint validateTransformationMatrix_values (value : pyval) (vs : list pyval)
  : result unit :=
  match vs with
  | [] => mret ()
  | v :: rest =>
      if negb (is_int_or_float v) then
        Raise (FontPartsError
                 ("Transformation matrix values must be instances of int or float, not "
                  +:+ type_name value +:+ "."))
      else validateTransformationMatrix_values value rest
  end.

(** [validateTransformationMatrix], validators.py line 117. *)
Definition validateTransformationMatrix (value : pyval) : result pyval :=
  if negb (is_tuple_or_list value) then
    Raise (FontPartsError
             ("Transformation matrices must be tuple instances, not "
              +:+ type_name value +:+ "."))
  else if negb (len value =? 6)%Z then
    Raise (FontPartsError
             ("Transformation matrices must contain six values, not "
              +:+ pretty (len value) +:+ "."))
  else
    validateTransformationMatrix_values value (elements value);;
    mret (PTuple (map to_float (elements value))).

(** [validateX], validators.py line 73. *)
Definition validateX (value : pyval) : result pyval :=
  if negb (is_int_or_float value) then
    Raise (FontPartsError
             ("X coordinates must be instances of int or float, not "
              +:+ type_name value +:+ "."))
  else mret value.

(** [validateY], validators.py line 78. *)
Definition validateY (value : pyval) : result pyval :=
  if negb (is_int_or_float value) then
    Raise (FontPartsError
             ("Y coordinates must be instances of int or float, not "
              +:+ type_name value +:+ "."))
  else mret value.

(** [validateCoordinateTuple], validators.py line 83.  The unpacking
    [x, y = value] comes after the length check. *)
Definition validateCoordinateTuple (value : pyval) : result pyval :=
  if negb (is_tuple_or_list value) then
    Raise (FontPartsError
             ("Coordinates must be tuple instances, not "
              +:+ type_name value +:+ "."))
  else if negb (len value =? 2)%Z then
    Raise (FontPartsError
             ("Coordinates must be tuples containing two items, not "
              +:+ pretty (len value) +:+ "."))
  else
    match elements value with
    | [x; y] =>
        x ← validateX x;
        y ← validateY y;
        mret (PTuple [x; y])
    | _ => Raise (ValueError "wrong number of values to unpack")
    end.

(** [validateTransformationOffset], validators.py line 127. *)
Definition validateTransformationOffset (value : pyval) : result pyval :=
  validateCoordinateTuple value.

(** [value < n] and [value > n] for a number [value] and a small integer
    [n], which a float comparison sees exactly. *)
Definition number_lt (value : pyval) (n : Z) : bool :=
  match value with
  | PBool b => ((if b then 1 else 0) <? n)%Z
  | PInt z => (z <? n)%Z
  | PFloat f => PrimFloat.ltb f (float_of_Z n)
  | _ => false
  end.

Definition number_gt (value : pyval) (n : Z) : bool :=
  match value with
  | PBool b => (n <? (if b then 1 else 0))%Z
  | PInt z => (n <? z)%Z
  | PFloat f => PrimFloat.ltb (float_of_Z n) f
  | _ => false
  end.

Section Angle.

(** ["%s" % f] for a float: Python's float formatting, left open. *)
Variable str_float : float -> string.

(** ["%s" % value] for a number. *)
Definition str_number (value : pyval) : string :=
  match value with
  | PBool b => if b then "True" else "False"
  | PInt z => pretty z
  | PFloat f => str_float f
  | other => type_name other
  end.

(** [validateTransformationAngle], validators.py line 130. *)
Definition validateTransformationAngle (value : pyval) : result pyval :=
  if negb (is_int_or_float value) then
    Raise (FontPartsError
             ("Angles must be instances of int ot float, not "
              +:+ type_name value +:+ "."))
  else if number_lt value 0 || number_gt value 360 then
    Raise (FontPartsError
             ("The value for the angle (" +:+ str_number value
              +:+ ") is not between 0 and 1."))
  else mret (to_float value).

End Angle.

Section LayerName.

(** Python's [UnicodeDecodeError], which [unicode(s)] raises for a byte
    string that is not ASCII. *)
Variable UnicodeDecodeError : exn.

(** [unicode(value)] for a string [value]: a [str] is decoded as
    ASCII, a [unicode] is handed back. *)
Definition unicode_ (value : pyval) : result pyval :=
  match value with
  | PStr s =>
      if forallb (fun c => (c <? 128)%N) (ords value)
      then mret (PUnicode (ords value))
      else Raise UnicodeDecodeError
  | other => mret other
  end.

(** [validateLayerName], validators.py line 34. *)
Definition validateLayerName (value : pyval) : result pyval :=
  if negb (is_basestring value) then
    Raise (FontPartsError
             ("Layer names must be strings, not " +:+ type_name value +:+ "."))
  else if (len value <? 1)%Z then
    Raise (FontPartsError "Layer names must be at least one character long.")
  else unicode_ value.

End LayerName.

End validators.

(** ** [fontParts.base.point] *)

Module point.

Section BasePoint.
Context {T : Type} `{Number T}.

(** A point: the parent reference that [BasePoint] keeps itself, and the
    coordinates, which live in the environment's point. *)
Record BasePoint : Type := {
  _contour : option weakref.ref;
  x : T;
  y : T
}.

(** A point as the class makes it: [_contour = None], point.py line 52. *)
Definition new (x0 y0 : T) : BasePoint :=
  {| _contour := None; x := x0; y := y0 |}.

(** [BasePoint._get_contour], point.py line 56. *)
Definition _get_contour (w : Parents) (self : BasePoint) : option weakref.oid :=
  match _contour self with
  | None => None
  | Some r => weakref.deref (alive w) r
  end.

(** [BasePoint._set_contour], point.py line 61. *)
Definition _set_contour (self : BasePoint) (contour : option weakref.oid)
  : result BasePoint :=
  match _contour self with
  | Some _ => Raise AssertionError
  | None =>
      let contour := weakref.Ref <$> contour in
      mret {| _contour := contour; x := x self; y := y self |}
  end.

(** [BasePoint._get_glyph], point.py line 71. *)
Definition _get_glyph (w : Parents) (self : BasePoint)
  : result (option weakref.oid) :=
  match _contour self with
  | None => mret None
  | Some _ => attribute "glyph" (contour_glyph w) (_get_contour w self)
  end.

(** [BasePoint._get_layer], point.py line 80. *)
Definition _get_layer (w : Parents) (self : BasePoint)
  : result (option weakref.oid) :=
  match _contour self with
  | None => mret None
  | Some _ =>
      glyph ← _get_glyph w self;
      attribute "layer" (glyph_layer w) glyph
  end.

(** [BasePoint._get_font], point.py line 89. *)
Definition _get_font (w : Parents) (self : BasePoint)
  : result (option weakref.oid) :=
  match _contour self with
  | None => mret None
  | Some _ =>
      glyph ← _get_glyph w self;
      attribute "font" (glyph_font w) glyph
  end.

(** Modelled from the spec: [BasePoint._set_x] and [_set_y] are hooks
    that the environment's point class overrides, and that class is not
    among the sources; storage is delegated to it, so the override keeps
    the coordinate it is given. *)
Definition _set_x (self : BasePoint) (value : T) : result BasePoint :=
  mret {| _contour := _contour self; x := value; y := y self |}.

(** Modelled from the spec: see [_set_x]. *)
Definition _set_y (self : BasePoint) (value : T) : result BasePoint :=
  mret {| _contour := _contour self; x := x self; y := value |}.

(** [BasePoint._set_base_x], point.py line 217. *)
Definition _set_base_x (self : BasePoint) (value : T) : result BasePoint :=
  value ← normalizers.normalizeX value;
  _set_x self value.

(** [BasePoint._set_base_y], point.py line 260. *)
Definition _set_base_y (self : BasePoint) (value : T) : result BasePoint :=
  value ← normalizers.normalizeY value;
  _set_y self value.

(** [BasePoint._transformBy], point.py line 419.  [moveBy] is the method
    the call [self.moveBy] resolves to. *)
Definition _transformBy
    (moveBy : BasePoint -> T * T -> result BasePoint)
    (self : BasePoint) (matrix : transform.matrix T)
    (origin originOffset : T * T) : result BasePoint :=
  let t := transform.of_matrix matrix in
  let '(x', y') := transform.transformPoint t (x self, y self) in
  self ← _set_base_x self x';
  self ← _set_base_y self y';
  if negb (Base.TransformationMixin.coord_eqb originOffset (zero, zero)) then
    moveBy self originOffset
  else mret self.

(** [point.transformBy(matrix, origin)] on a [BasePoint]: the mixin's
    [transformBy], [moveBy] and [_moveBy] with the point's own
    [_transformBy].  Each level of [fuel] is one nested call of
    [transformBy]; Python gives up at its recursion limit. *)
Fixpoint transformBy (fuel : nat) (self : BasePoint)
    (matrix : transform.matrix T) (origin : option (T * T))
  : result BasePoint :=
  match fuel with
  | O => Raise RecursionError
  | S fuel =>
      Base.TransformationMixin.transformBy
        (_transformBy
           (Base.TransformationMixin.moveBy
              (Base.TransformationMixin._moveBy (transformBy fuel))))
        self matrix origin
  end.

(** [point.moveBy(value)] on a [BasePoint]. *)
Definition moveBy (fuel : nat) (self : BasePoint) (value : T * T)
  : result BasePoint :=
  Base.TransformationMixin.moveBy
    (Base.TransformationMixin._moveBy (transformBy fuel)) self value.

(** [point.scaleBy(value, origin)] on a [BasePoint]. *)
Definition scaleBy (fuel : nat) (self : BasePoint) (value : T * T)
    (origin : option (T * T)) : result BasePoint :=
  Base.TransformationMixin.scaleBy
    (Base.TransformationMixin._scaleBy (transformBy fuel)) self value origin.

End BasePoint.
Arguments BasePoint T : clear implicits.

End point.

(** ** Python sequences *)

Module sequences.

Section Sequences.
Context {A : Type} `{EqDecision A}.

(** [l.index(x)] where [==] is identity: the first position of [x], or
    [ValueError]. *)
Fixpoint index (l : list A) (x : A) : result nat :=
  match l with
  | [] => Raise (ValueError "x not in list")
  | a :: rest =>
      if decide (a = x) then mret O
      else i ← index rest x; mret (S i)
  end.

(** [l.index(x)] where the items answer [==] by [eq]. *)
Fixpoint index_by (eq : A -> A -> bool) (l : list A) (x : A) : result nat :=
  match l with
  | [] => Raise (ValueError "x not in list")
  | a :: rest =>
      if eq a x then mret O
      else i ← index_by eq rest x; mret (S i)
  end.

(** [l[i]]: a negative [i] counts from the end. *)
Definition getitem (l : list A) (i : Z) : result A :=
  let i := if (i <? 0)%Z then (i + Z.of_nat (length l))%Z else i in
  if (i <? 0)%Z then Raise (IndexError "index out of range")
  else
    match l !! Z.to_nat i with
    | Some a => mret a
    | None => Raise (IndexError "index out of range")
    end.

(** [l.insert(i, x)] for [0 <= i]. *)
Definition insert_at (i : nat) (x : A) (l : list A) : list A :=
  take i l ++ x :: drop i l.

(** [l[:-1]] *)
Definition but_last (l : list A) : list A :=
  take (length l - 1) l.

(** [x in l] *)
Definition contains (l : list A) (x : A) : bool :=
  bool_decide (x ∈ l).

End Sequences.

End sequences.

(** ** [fontParts.base.segment] *)

Module segment.

Section BaseSegment.
Context {T : Type}.

(** The environment's point, as far as a segment looks at it. *)
Record Point : Type := {
  x : T;
  y : T;
  type : string
}.

(** A segment keeps its parent reference and its points; a point is
    known by its identity. *)
Record BaseSegment : Type := {
  _contour : option weakref.ref;
  _points : list nat
}.

(** [BaseSegment.__eq__], segment.py line 15: segments are equal when
    their points are. *)
Definition __eq__ (self other : BaseSegment) : bool :=
  bool_decide (_points self = _points other).

(** The objects a segment works on: the live parents, every point object
    by identity, and the points of the segment's contour in order. *)
Record World : Type := {
  alive : weakref.heap;
  objects : list Point;
  points : list nat
}.

(** A segment as the class makes it: [_contour = None], segment.py
    line 40. *)
Definition new (pts : list nat) : BaseSegment :=
  {| _contour := None; _points := pts |}.

(** [BaseSegment._get_contour], segment.py line 44. *)
Definition _get_contour (h : weakref.heap) (self : BaseSegment)
  : option weakref.oid :=
  match _contour self with
  | None => None
  | Some r => weakref.deref h r
  end.

(** [BaseSegment._set_contour], segment.py line 49. *)
Definition _set_contour (self : BaseSegment) (contour : option weakref.oid)
  : result BaseSegment :=
  match _contour self with
  | Some _ => Raise AssertionError
  | None =>
      let contour := weakref.Ref <$> contour in
      mret {| _contour := contour; _points := _points self |}
  end.

(** [BaseSegment._get_glyph], segment.py line 59. *)
Definition _get_glyph (w : Parents) (self : BaseSegment)
  : result (option weakref.oid) :=
  match _contour self with
  | None => mret None
  | Some _ =>
      attribute "glyph" (contour_glyph w) (_get_contour (parents.alive w) self)
  end.

(** [BaseSegment._get_layer], segment.py line 68. *)
Definition _get_layer (w : Parents) (self : BaseSegment)
  : result (option weakref.oid) :=
  match _contour self with
  | None => mret None
  | Some _ =>
      glyph ← _get_glyph w self;
      attribute "layer" (glyph_layer w) glyph
  end.

(** [BaseSegment._get_font], segment.py line 77. *)
Definition _get_font (w : Parents) (self : BaseSegment)
  : result (option weakref.oid) :=
  match _contour self with
  | None => mret None
  | Some _ =>
      glyph ← _get_glyph w self;
      attribute "font" (glyph_font w) glyph
  end.

(** The point object behind an identity.  Every identity a segment or a
    contour holds is in the store; the error is there for the others. *)
Definition the_point (w : World) (p : nat) : result Point :=
  match objects w !! p with
  | Some pt => mret pt
  | None => Raise (AttributeError "no such point")
  end.

(** The normalizers of [fontParts.base.normalizers] that the type
    accessors go through, and [contour.segments] of
    [fontParts.base.contour]; neither module is among the sources. *)
Variable normalizeSegmentType : string -> result string.
Variable normalizePointType : string -> result string.
Variable segments : World -> list BaseSegment.

(** [point.type], [BasePoint._get_base_type], point.py line 119. *)
Definition point_type (w : World) (p : nat) : result string :=
  pt ← the_point w p;
  normalizePointType (type pt).

(** [point.type = value], [BasePoint._set_base_type], point.py line 124;
    the environment's point keeps the value. *)
Definition set_point_type (w : World) (p : nat) (value : string)
  : result World :=
  value ← normalizePointType value;
  pt ← the_point w p;
  mret {| alive := alive w;
          objects := <[p := {| x := x pt; y := y pt; type := value |}]> (objects w);
          points := points w |}.

(** Modelled from the spec: [BaseContour.insertPoint] is not among the
    sources.  The environment's [RContour._insertPoint]
    (nonelab/contour.py) makes a new point from [position] and [type]
    and hands it to the wrapped contour at [index]. *)
Definition insertPoint (w : World) (index : nat) (position : T * T)
    (type_ : string) : World :=
  {| alive := alive w;
     objects := objects w ++ [{| x := position.1; y := position.2; type := type_ |}];
     points := sequences.insert_at index (length (objects w)) (points w) |}.

(** Modelled from the spec: [BaseContour.removePoint] is not among the
    sources.  Given a point it finds the point's index in the contour;
    the environment's [RContour._removePoint] (nonelab/contour.py)
    removes the point at that index from the wrapped contour. *)
Definition removePoint (w : World) (p : nat) : result World :=
  i ← sequences.index (points w) p;
  mret {| alive := alive w; objects := objects w;
          points := delete i (points w) |}.

(** [for point in offCurves: contour.removePoint(point)] *)
Fixpoint removePoints (w : World) (offCurves : list nat) : result World :=
  match offCurves with
  | [] => mret w
  | p :: rest =>
      w ← removePoint w p;
      removePoints w rest
  end.

(** [BaseSegment._get_points], segment.py line 226. *)
Definition _get_points (self : BaseSegment) : list nat := _points self.

(** [BaseSegment._get_onCurve], segment.py line 237. *)
Definition _get_onCurve (self : BaseSegment) : result nat :=
  sequences.getitem (_get_points self) (-1).

(** [BaseSegment._get_offCurve], segment.py line 251. *)
Definition _get_offCurve (self : BaseSegment) : list nat :=
  sequences.but_last (_get_points self).

(** [BaseSegment._get_type], segment.py line 118. *)
Definition _get_type (w : World) (self : BaseSegment) : result string :=
  onCurve ← _get_onCurve self;
  point_type w onCurve.

(** [BaseSegment._get_base_type], segment.py line 109. *)
Definition _get_base_type (w : World) (self : BaseSegment) : result string :=
  value ← _get_type w self;
  normalizeSegmentType value.

(** [BaseSegment._set_type], segment.py line 125. *)
Definition _set_type (w : World) (self : BaseSegment) (newType : string)
  : result (World * BaseSegment) :=
  oldType ← _get_base_type w self;
  if decide (oldType = newType) then mret (w, self)
  else
    match _get_contour (alive w) self with
    | None => Raise (FontPartsError "The segment does not belong to a contour.")
    | Some contour =>
        r ← (if sequences.contains ["move"; "line"] newType
                && sequences.contains ["move"; "line"] oldType then
               mret (w, self)
             else if negb (sequences.contains ["curve"; "qcurve"] newType) then
               let offCurves := _get_offCurve self in
               w ← removePoints w offCurves;
               mret (w, self)
             else
               let segments := segments w in
               i ← sequences.index_by __eq__ segments self;
               prevSegment ← sequences.getitem segments (Z.of_nat i - 1);
               prev ← _get_onCurve prevSegment;
               on ← _get_onCurve self;
               onPoint ← the_point w on;
               let xy := (x onPoint, y onPoint) in
               i ← sequences.index (points w) on;
               let w := insertPoint w i xy "offcurve" in
               off2 ← sequences.getitem (points w) (Z.of_nat i);
               prevPoint ← the_point w prev;
               let w := insertPoint w i (x prevPoint, y prevPoint) "offcurve" in
               off1 ← sequences.getitem (points w) (Z.of_nat i);
               mret (w, {| _contour := _contour self;
                           _points := [off1; off2; on] |}));
        onCurve ← _get_onCurve r.2;
        w ← set_point_type r.1 onCurve newType;
        mret (w, r.2)
    end.

End BaseSegment.
Arguments Point T : clear implicits.
Arguments World T : clear implicits.

End segment.

(** ** [fontParts.base.features] *)

Module features.

(** [BaseFeatures] keeps its parent reference; the text lives in the
    environment. *)
Record BaseFeatures : Type := {
  _font : option weakref.ref
}.

(** Features as the class makes them: [_font = None], features.py
    line 32. *)
Definition new : BaseFeatures := {| _font := None |}.

(** [BaseFeatures._get_font], features.py line 36. *)
Definition _get_font (h : weakref.heap) (self : BaseFeatures)
  : option weakref.oid :=
  match _font self with
  | None => None
  | Some r => weakref.deref h r
  end.

(** [BaseFeatures._set_font], features.py line 41.  [==] between fonts
    is taken as identity, the default of [object]. *)
Definition _set_font (h : weakref.heap) (self : BaseFeatures)
    (font : option weakref.oid) : result BaseFeatures :=
  let asserted :=
    match _font self with
    | None => true
    | Some r => bool_decide (weakref.deref h r = font)
    end in
  if asserted then
    let font := weakref.Ref <$> font in
    mret {| _font := font |}
  else Raise AssertionError.

(** [BaseFeatures._get_text], features.py line 71. *)
Definition _get_text (self : object) : result pyval :=
  Base.BaseObject.raiseNotImplementedError self;; mret PNone.

(** [BaseFeatures._set_text], features.py line 81. *)
Definition _set_text (self : object) (value : pyval) : result pyval :=
  Base.BaseObject.raiseNotImplementedError self;; mret PNone.

End features.

(** ** [fontParts.base.font] *)

Module font.

(** [BaseFont._save], font.py line 197. *)
Definition _save (self : object) (path showProgress formatVersion : pyval)
  : result pyval :=
  Base.BaseObject.raiseNotImplementedError self;; mret PNone.

Section BaseFont.
Context {Color : Type}.

(** The environment's layer, as far as the font looks at it. *)
Record Layer : Type := {
  name : string;
  color : option Color;
  font : option weakref.oid
}.

(** A font and what its environment holds: every layer object by
    identity, the layers in order and the layer order. *)
Record BaseFont : Type := {
  self_ : weakref.oid;
  objects : gmap nat Layer;
  layers : list nat;
  layerOrder : list string
}.

(** [fontParts.base.normalizers], which is not among the sources. *)
Variable normalizeLayerName : string -> result string.
Variable normalizeColor : Color -> result Color.

(** [BaseFont._newLayer] as the environment overrides it. *)
Variable _newLayer : BaseFont -> string -> option Color -> result (BaseFont * nat).

Definition the_layer (f : BaseFont) (layer : nat) : result Layer :=
  match objects f !! layer with
  | Some l => mret l
  | None => Raise (AttributeError "no such layer")
  end.

Definition with_objects (f : BaseFont) (o : gmap nat Layer) : BaseFont :=
  {| self_ := self_ f; objects := o; layers := layers f;
     layerOrder := layerOrder f |}.

(** [BaseFont._setFontInLayer], font.py line 578. *)
Definition _setFontInLayer (f : BaseFont) (layer : nat) : result BaseFont :=
  l ← the_layer f layer;
  match font l with
  | None =>
      mret (with_objects f
              (<[layer := {| name := name l; color := color l;
                             font := Some (self_ f) |}]> (objects f)))
  | Some _ => mret f
  end.

(** The loop of [_get_base_layers]. *)
Fixpoint _setFontInLayers (f : BaseFont) (ls : list nat) : result BaseFont :=
  match ls with
  | [] => mret f
  | layer :: rest =>
      f ← _setFontInLayer f layer;
      _setFontInLayers f rest
  end.

(** [BaseFont._get_base_layers], font.py line 510; [_get_layers] is the
    environment's. *)
Definition _get_base_layers (f : BaseFont) : result (BaseFont * list nat) :=
  let layers := layers f in
  f ← _setFontInLayers f layers;
  mret (f, layers).

(** [BaseFont._get_base_layerOrder], font.py line 542; [_get_layerOrder]
    is the environment's, and the order it gives is well formed. *)
Definition _get_base_layerOrder (f : BaseFont) : result (list string) :=
  mret (layerOrder f).

(** The loop of [_getLayer]. *)
Fixpoint _getLayer_loop (f : BaseFont) (ls : list nat) (name_ : string)
  : result nat :=
  match ls with
  | [] =>
      Raise (FontPartsError
               ("No layer with the name '" +:+ name_ +:+ "' exists."))
  | layer :: rest =>
      l ← the_layer f layer;
      if decide (name l = name_) then mret layer
      else _getLayer_loop f rest name_
  end.

(** [BaseFont._getLayer], font.py line 638. *)
Definition _getLayer (f : BaseFont) (name_ : string)
  : result (BaseFont * nat) :=
  r ← _get_base_layers f;
  layer ← _getLayer_loop r.1 r.2 name_;
  mret (r.1, layer).

(** [BaseFont.getLayer], font.py line 627. *)
Definition getLayer (f : BaseFont) (name_ : string)
  : result (BaseFont * nat) :=
  name_ ← normalizeLayerName name_;
  r ← _getLayer f name_;
  f ← _setFontInLayer r.1 r.2;
  mret (f, r.2).

(** Modelled from the spec: [layer.color = color]; [BaseLayer] is not
    among the sources.  The value is normalized and handed to the
    environment, which keeps it. *)
Definition set_color (f : BaseFont) (layer : nat) (value : Color)
  : result BaseFont :=
  value ← normalizeColor value;
  l ← the_layer f layer;
  mret (with_objects f
          (<[layer := {| name := name l; color := Some value;
                         font := font l |}]> (objects f))).

(** [BaseFont.newLayer], font.py line 659. *)
Definition newLayer (f : BaseFont) (name_ : string) (color_ : option Color)
  : result (BaseFont * nat) :=
  name_ ← normalizeLayerName name_;
  layerOrder ← _get_base_layerOrder f;
  if sequences.contains layerOrder name_ then
    r ← getLayer f name_;
    match color_ with
    | Some c =>
        f ← set_color r.1 r.2 c;
        mret (f, r.2)
    | None => mret r
    end
  else
    color_ ← match color_ with
             | Some c => c ← normalizeColor c; mret (Some c)
             | None => mret None
             end;
    r ← _newLayer f name_ color_;
    f ← _setFontInLayer r.1 r.2;
    mret (f, r.2).

(** [BaseFont._get_defaultLayer] as the environment overrides it, and
    [normalizers.normalizeDefaultLayer], which is not among the sources. *)
Variable _get_defaultLayer : BaseFont -> result string.
Variable normalizeDefaultLayer : string -> BaseFont -> result string.

(** [BaseFont._get_base_defaultLayer], font.py line 593: what
    [self.defaultLayer] evaluates to. *)
Definition _get_base_defaultLayer (f : BaseFont) : result string :=
  value ← _get_defaultLayer f;
  normalizeDefaultLayer value f.

(** Calling a layer name, as in [self.defaultLayer()]: a string is not
    callable. *)
Definition call_name (name_ : string) : result string :=
  Raise (TypeError "'unicode' object is not callable").

(** What the default layer is asked to do: [layer.autoUnicodes()],
    [layer.getReverseComponentMapping()], [layer.getCharacterMapping()]
    and [layer.keys()] of [BaseLayer], which is not among the sources. *)
Variable layer_autoUnicodes : BaseFont -> nat -> result BaseFont.
Variable layer_getReverseComponentMapping : BaseFont -> nat -> result pyval.
Variable layer_getCharacterMapping : BaseFont -> nat -> result pyval.
Variable layer_keys : BaseFont -> nat -> result pyval.

(** [BaseFont._autoUnicodes], font.py line 887. *)
Definition _autoUnicodes (f : BaseFont) : result BaseFont :=
  defaultLayer ← _get_base_defaultLayer f;
  name_ ← call_name defaultLayer;
  r ← getLayer f name_;
  layer_autoUnicodes r.1 r.2.

(** [BaseFont._getReverseComponentMapping], font.py line 1166. *)
Definition _getReverseComponentMapping (f : BaseFont)
  : result (BaseFont * pyval) :=
  defaultLayer ← _get_base_defaultLayer f;
  name_ ← call_name defaultLayer;
  r ← getLayer f name_;
  m ← layer_getReverseComponentMapping r.1 r.2;
  mret (r.1, m).

(** [BaseFont._getCharacterMapping], font.py line 1188. *)
Definition _getCharacterMapping (f : BaseFont) : result (BaseFont * pyval) :=
  defaultLayer ← _get_base_defaultLayer f;
  name_ ← call_name defaultLayer;
  r ← getLayer f name_;
  m ← layer_getCharacterMapping r.1 r.2;
  mret (r.1, m).

(** [BaseFont._keys], font.py line 745, which reads [self.defaultLayer]
    without calling it. *)
Definition _keys (f : BaseFont) : result (BaseFont * pyval) :=
  defaultLayer ← _get_base_defaultLayer f;
  r ← getLayer f defaultLayer;
  keys ← layer_keys r.1 r.2;
  mret (r.1, keys).

End BaseFont.
Arguments Layer Color : clear implicits.
Arguments BaseFont Color : clear implicits.

End font.

(** ** [BaseDict], the methods over the hooks of a subclass *)

Module mapping.

Section BaseDict.
Context {K V St : Type}.

(** The class attributes and the hooks, as a subclass defines them, over
    the state [St] of whatever the subclass keeps its pairs in. *)
Variable keyNormalizer : option (K -> result K).
Variable valueNormalizer : option (V -> result V).
Variable _items : St -> result (list (K * V)).
Variable _contains : St -> K -> result bool.
Variable _setItem : St -> K -> V -> result St.
Variable _getItem : St -> K -> result V.
Variable _delItem : St -> K -> result St.

(** [if self.keyNormalizer is not None: key = self.keyNormalizer(key)] *)
Definition normalized_key (key : K) : result K :=
  match keyNormalizer with
  | Some normalize => normalize key
  | None => mret key
  end.

(** [if self.valueNormalizer is not None: value = ...] *)
Definition normalized_value (value : V) : result V :=
  match valueNormalizer with
  | Some normalize => normalize value
  | None => mret value
  end.

(** [if default is not None and self.valueNormalizer is not None:
    default = self.valueNormalizer(default)] *)
Definition normalized_default (default : option V) : result (option V) :=
  match default, valueNormalizer with
  | Some d, Some normalize => d ← normalize d; mret (Some d)
  | _, _ => mret default
  end.

(** [BaseDict.items], base.py line 152, over typed pairs. *)
Definition items (st : St) : result (list (K * V)) :=
  items ← _items st;
  match keyNormalizer, valueNormalizer with
  | Some keyNormalizer, Some valueNormalizer =>
      mapM (fun kv =>
              key ← keyNormalizer kv.1;
              value ← valueNormalizer kv.2;
              mret (key, value)) items
  | _, _ => Raise (UnboundLocalError "values")
  end.

(** [BaseDict._keys], base.py line 146. *)
Definition _keys (st : St) : result (list K) :=
  its ← items st;
  mret (map fst its).

(** [BaseDict.keys], base.py line 140. *)
Definition keys (st : St) : result (list K) :=
  keys ← _keys st;
  match keyNormalizer with
  | Some normalize => mapM normalize keys
  | None => mret keys
  end.

(** [BaseDict._values], base.py line 173. *)
Definition _values (st : St) : result (list V) :=
  its ← items st;
  mret (map snd its).

(** [BaseDict.values], base.py line 167. *)
Definition values (st : St) : result (list V) :=
  values ← _values st;
  match valueNormalizer with
  | Some normalize => mapM normalize values
  | None => mret values
  end.

(** [BaseDict._len], base.py line 134. *)
Definition _len (st : St) : result nat :=
  ks ← keys st;
  mret (length ks).

(** [BaseDict.__len__], base.py line 130. *)
Definition __len__ (st : St) : result nat := _len st.

(** [BaseDict.__contains__], base.py line 179. *)
Definition __contains__ (st : St) (key : K) : result bool :=
  key ← normalized_key key;
  _contains st key.

(** [BaseDict.__setitem__], base.py line 192. *)
Definition __setitem__ (st : St) (key : K) (value : V) : result St :=
  key ← normalized_key key;
  value ← normalized_value value;
  _setItem st key value.

(** [BaseDict.__getitem__], base.py line 205. *)
Definition __getitem__ (st : St) (key : K) : result V :=
  key ← normalized_key key;
  _getItem st key.

(** [BaseDict._get], base.py line 223. *)
Definition _get (st : St) (key : K) (default : option V) : result (option V) :=
  found ← __contains__ st key;
  if found : bool then
    value ← __getitem__ st key;
    mret (Some value)
  else mret default.

(** [BaseDict.get], base.py line 216. *)
Definition get (st : St) (key : K) (default : option V) : result (option V) :=
  key ← normalized_key key;
  default ← normalized_default default;
  _get st key default.

(** [BaseDict.__delitem__], base.py line 231. *)
Definition __delitem__ (st : St) (key : K) : result St :=
  key ← normalized_key key;
  _delItem st key.

(** [BaseDict._pop], base.py line 249. *)
Definition _pop (st : St) (key : K) (default : option V)
  : result (St * option V) :=
  found ← __contains__ st key;
  if found : bool then
    value ← __getitem__ st key;
    st ← __delitem__ st key;
    mret (st, Some value)
  else mret (st, default).

(** [BaseDict.pop], base.py line 242. *)
Definition pop (st : St) (key : K) (default : option V)
  : result (St * option V) :=
  key ← normalized_key key;
  default ← normalized_default default;
  _pop st key default.

(** [BaseDict._update], base.py line 283; [other] stands for the pairs
    of [other.items()]. *)
Fixpoint _update (st : St) (other : list (K * V)) : result St :=
  match other with
  | [] => mret st
  | (key, value) :: rest =>
      st ← __setitem__ st key value;
      _update st rest
  end.

(** [BaseDict.update], base.py line 272.  The dictionary [d] of
    normalized pairs is built and then left unused: [_update] gets
    [other]. *)
Definition update (st : St) (other : list (K * V)) : result St :=
  match keyNormalizer, valueNormalizer with
  | Some keyNormalizer, Some valueNormalizer =>
      mapM (fun kv =>
              key ← keyNormalizer kv.1;
              value ← valueNormalizer kv.2;
              mret (key, value)) other;;
      _update st other
  | _, _ => _update st other
  end.

(** The loop of [_clear]. *)
Fixpoint _clear_keys (st : St) (keys : list K) : result St :=
  match keys with
  | [] => mret st
  | key :: rest =>
      st ← __delitem__ st key;
      _clear_keys st rest
  end.

(** [BaseDict._clear], base.py line 293. *)
Definition _clear (st : St) : result St :=
  ks ← keys st;
  _clear_keys st ks.

(** [BaseDict.clear], base.py line 290. *)
Definition clear (st : St) : result St := _clear st.

End BaseDict.

End mapping.

(** ** [fontParts.nonelab.kerning] *)

Module kerning.

Section RKerning.
Context {K : Type} `{Countable K} {V : Type}.

(** Python's [KeyError], which the wrapped dictionary raises for a key
    it does not have. *)
Variable KeyError : K -> exn.

(** [RKerning._items], nonelab/kerning.py line 10; the wrapped
    [defcon.Kerning] is a dictionary. *)
Definition _items (naked : gmap K V) : result (list (K * V)) :=
  mret (map_to_list naked).

(** [RKerning._contains], nonelab/kerning.py line 13. *)
Definition _contains (naked : gmap K V) (key : K) : result bool :=
  mret (bool_decide (is_Some (naked !! key))).

(** [RKerning._setItem], nonelab/kerning.py line 16. *)
Definition _setItem (naked : gmap K V) (key : K) (value : V)
  : result (gmap K V) :=
  mret (<[key := value]> naked).

(** [RKerning._getItem], nonelab/kerning.py line 19. *)
Definition _getItem (naked : gmap K V) (key : K) : result V :=
  match naked !! key with
  | Some value => mret value
  | None => Raise (KeyError key)
  end.

(** [RKerning._delItem], nonelab/kerning.py line 22. *)
Definition _delItem (naked : gmap K V) (key : K) : result (gmap K V) :=
  match naked !! key with
  | Some _ => mret (delete key naked)
  | None => Raise (KeyError key)
  end.

(** The normalizers [BaseKerning] gives the class; [fontParts.base.kerning]
    is not among the sources. *)
Variable keyNormalizer : option (K -> result K).
Variable valueNormalizer : option (V -> result V).

(** The methods [RKerning] inherits from [BaseDict], on its own hooks. *)
Definition items := mapping.items keyNormalizer valueNormalizer _items.
Definition keys := mapping.keys keyNormalizer valueNormalizer _items.
Definition values := mapping.values keyNormalizer valueNormalizer _items.
Definition __len__ := mapping.__len__ keyNormalizer valueNormalizer _items.
Definition __contains__ := mapping.__contains__ keyNormalizer _contains.
Definition __setitem__ :=
  mapping.__setitem__ keyNormalizer valueNormalizer _setItem.
Definition __getitem__ := mapping.__getitem__ keyNormalizer _getItem.
Definition __delitem__ := mapping.__delitem__ keyNormalizer _delItem.
Definition get :=
  mapping.get keyNormalizer valueNormalizer _contains _getItem.
Definition pop :=
  mapping.pop keyNormalizer valueNormalizer _contains _getItem _delItem.
Definition update :=
  mapping.update keyNormalizer valueNormalizer _setItem.
Definition clear :=
  mapping.clear keyNormalizer valueNormalizer _items _delItem.

End RKerning.

End kerning.

(** * Theorems *)

(** ** Calls that return and calls that raise *)

Lemma bind_Return {A B : Type} (a : A) (k : A -> result B) :
  (Return a ≫= k) = k a.
Proof. reflexivity. Qed.

Lemma bind_Raise {A B : Type} (e : exn) (k : A -> result B) :
  (Raise e ≫= k) = Raise e.
Proof. reflexivity. Qed.

Lemma bind_Return_inv {A B : Type} (m : result A) (k : A -> result B) (b : B) :
  (m ≫= k) = Return b -> exists a, m = Return a /\ k a = Return b.
Proof.
  destruct m as [a|e]; [|discriminate].
  intros Hk. exists a. split; [reflexivity|exact Hk].
Qed.

Lemma returns_not_raises {A : Type} (m : result A) :
  returns m -> ~ raises_FontPartsError m.
Proof. intros [a ->] [msg Hmsg]. discriminate. Qed.

Lemma raises_not_returns {A : Type} (m : result A) :
  raises_FontPartsError m -> forall a, m <> Return a.
Proof. intros [msg ->] a. discriminate. Qed.

(** A comprehension returns exactly when every item's computation
    returns, and then it collects the results in order. *)
Lemma mapM_Return {A B : Type} (f : A -> result B) (l : list A) (out : list B) :
  mapM f l = Return out <-> Forall2 (fun a b => f a = Return b) l out.
Proof.
  revert out. induction l as [|a l IH]; intros out; simpl.
  - split.
    + intros [= <-]. constructor.
    + intros Hnil. inversion Hnil. reflexivity.
  - split.
    + intros Hm.
      apply bind_Return_inv in Hm as (b & Hb & Hm).
      apply bind_Return_inv in Hm as (k & Hk & Hm).
      injection Hm as <-. constructor; [exact Hb|]. apply IH, Hk.
    + intros Hall. inversion Hall as [|? b ? k Hb Hk]; subst.
      rewrite Hb. apply IH in Hk. simpl. rewrite Hk. reflexivity.
Qed.

Ltac result_simpl :=
  repeat first [ rewrite bind_Return | rewrite bind_Raise ].

(** ** [interpolate] *)



(** ** [raiseNotImplementedError] and the hooks that end in it *)

Definition not_implemented_message (self : object) : string :=
  "The " +:+ __name__ (__class__ self)
  +:+ " subclass does not implement this method.".

(** C10.  [raiseNotImplementedError] raises [FontPartsError] with a message
    that has the name of the receiver's class in it, and the base-class
    hooks that call it ([naked], [BaseFeatures._get_text] and [_set_text],
    [BaseDict._items], [BaseFont._save]) raise that same error: none of
    them returns. *)
Theorem raiseNotImplementedError_raises (self : object) :
  let raised {A : Type} (m : result A) :=
    m = Raise (FontPartsError (not_implemented_message self)) /\
    raises_FontPartsError m /\ ~ returns m in
  (exists before after : string,
      not_implemented_message self
      = before +:+ __name__ (__class__ self) +:+ after) /\
  raised (Base.BaseObject.raiseNotImplementedError self) /\
  raised (Base.BaseObject.naked self) /\
  raised (features._get_text self) /\
  (forall value, raised (features._set_text self value)) /\
  raised (Base.BaseDict._items Base.BaseDict.base self) /\
  (forall path showProgress formatVersion,
      raised (font._save self path showProgress formatVersion)).
Proof.
  intros raised.
  assert (Hraised : forall (A : Type) (m : result A),
             m = Raise (FontPartsError (not_implemented_message self)) ->
             raised A m).
  { intros A m ->. split; [reflexivity|]. split.
    - eexists. reflexivity.
    - intros [a Ha]. discriminate. }
  split.
  - exists "The ", " subclass does not implement this method.". reflexivity.
  - repeat split; intros; apply Hraised; reflexivity.
Qed.

(** ** [validateIdentifier] *)

(** A code point inside [0x20 .. 0x7E]. *)
Definition printable (v : N) : Prop := (0x20 <= v /\ v <= 0x7E)%N.

(** What [validateIdentifier] rejects: not a string, longer than 100, or
    with a character below [0x20] or above [0x7E]. *)
Definition bad_identifier (value : pyval) : Prop :=
  is_basestring value = false \/
  100 < len value \/
  Exists (fun v => (v < 0x20 \/ 0x7E < v)%N) (ords value).

Lemma validateIdentifier_chars_spec (shown : string) (cs : list N) :
  (Forall printable cs /\ validators.validateIdentifier_chars shown cs = Return ()) \/
  (Exists (fun v => (v < 0x20 \/ 0x7E < v)%N) cs /\
   raises_FontPartsError (validators.validateIdentifier_chars shown cs)).
Proof.
  induction cs as [|v cs IH]; simpl.
  - left. split; [constructor|reflexivity].
  - destruct (v <? 0x20)%N eqn:Hlo; simpl.
    + right. apply N.ltb_lt in Hlo. split; [|eexists; reflexivity].
      apply Exists_cons_hd. left. exact Hlo.
    + destruct (0x7E <? v)%N eqn:Hhi.
      * right. apply N.ltb_lt in Hhi. split; [|eexists; reflexivity].
        apply Exists_cons_hd. right. exact Hhi.
      * apply N.ltb_ge in Hlo, Hhi.
        destruct IH as [[Hall Hret]|[Hex Hraise]].
        -- left. split; [|exact Hret]. constructor; [split|]; assumption.
        -- right. split; [|exact Hraise]. apply Exists_cons_tl, Hex.
Qed.

Lemma printable_not_bad (cs : list N) :
  Forall printable cs -> ~ Exists (fun v => (v < 0x20 \/ 0x7E < v)%N) cs.
Proof.
  intros Hall Hex. apply Exists_exists in Hex as (v & Hin & Hv).
  rewrite Forall_forall in Hall. destruct (Hall v Hin) as [Hlo Hhi].
  destruct Hv; lia.
Qed.

(** C6.  [validateIdentifier(value)] raises [FontPartsError] exactly when
    [value] is not a string, or is longer than 100, or has a character
    whose code point is below [0x20] or above [0x7E]; it returns [value]
    unchanged exactly in the other case, that of a string of at most 100
    characters all within [0x20 .. 0x7E]. *)
Theorem validateIdentifier_spec (value : pyval) :
  (raises_FontPartsError (validators.validateIdentifier value)
   <-> bad_identifier value) /\
  (validators.validateIdentifier value = Return value
   <-> is_basestring value = true /\ len value <= 100 /\
       Forall printable (ords value)).
Proof.
  unfold validators.validateIdentifier, bad_identifier.
  destruct (is_basestring value) eqn:Hstr; simpl.
  2:{ split; split.
      - intros _. left. reflexivity.
      - intros _. eexists. reflexivity.
      - discriminate.
      - intros [Habs _]. discriminate. }
  destruct (100 <? len value) eqn:Hlen.
  { apply Z.ltb_lt in Hlen. split; split.
    - intros _. right. left. exact Hlen.
    - intros _. eexists. reflexivity.
    - discriminate.
    - intros (_ & Hle & _). lia. }
  apply Z.ltb_ge in Hlen.
  destruct (validateIdentifier_chars_spec (validators.repr value) (ords value))
    as [[Hall Hret]|[Hex Hraise]].
  - rewrite Hret. simpl. split; split.
    + intros [msg Hmsg]. discriminate.
    + intros [Habs|[Habs|Habs]]; [discriminate|lia|].
      exfalso. exact (printable_not_bad _ Hall Habs).
    + intros _. repeat split; assumption.
    + intros _. reflexivity.
  - destruct Hraise as [msg Hmsg]. rewrite Hmsg. simpl. split; split.
    + intros _. right. right. exact Hex.
    + intros _. eexists. reflexivity.
    + discriminate.
    + intros (_ & _ & Hall). exfalso. exact (printable_not_bad _ Hall Hex).
Qed.

Example validateIdentifier_accepts :
  validators.validateIdentifier (PStr "ILHGJlygfds") = Return (PStr "ILHGJlygfds").
Proof. reflexivity. Qed.

Example validateIdentifier_rejects_control :
  raises_FontPartsError (validators.validateIdentifier (PUnicode [65; 127]%N))
  /\ raises_FontPartsError (validators.validateIdentifier (PInt 3)).
Proof. split; eexists; vm_compute; reflexivity. Qed.

(** ** [validateTransformationMatrix] *)

(** A tuple or list of exactly six values, each an [int] or a [float]. *)
Definition matrix_like (value : pyval) : Prop :=
  is_tuple_or_list value = true /\
  length (elements value) = 6%nat /\
  Forall (fun v => is_int_or_float v = true) (elements value).

Lemma validateTransformationMatrix_values_spec (value : pyval) (vs : list pyval) :
  (Forall (fun v => is_int_or_float v = true) vs /\
   validators.validateTransformationMatrix_values value vs = Return ()) \/
  (~ Forall (fun v => is_int_or_float v = true) vs /\
   raises_FontPartsError (validators.validateTransformationMatrix_values value vs)).
Proof.
  induction vs as [|v vs IH]; simpl.
  - left. split; [constructor|reflexivity].
  - destruct (is_int_or_float v) eqn:Hv; simpl.
    + destruct IH as [[Hall Hret]|[Hnot Hraise]].
      * left. split; [constructor; assumption|exact Hret].
      * right. split; [|exact Hraise].
        intros Hall. apply Hnot. inversion Hall; assumption.
    + right. split; [|eexists; reflexivity].
      intros Hall. inversion Hall; congruence.
Qed.

Lemma to_float_is_float (v : pyval) :
  is_int_or_float v = true -> exists f, to_float v = PFloat f.
Proof. destruct v; try discriminate; intros _; eexists; reflexivity. Qed.

Lemma len_elements (value : pyval) :
  is_tuple_or_list value = true -> len value = Z.of_nat (length (elements value)).
Proof. destruct value; try discriminate; reflexivity. Qed.

(** C7.  [validateTransformationMatrix(value)] returns
    [tuple(float(v) for v in value)] exactly when [value] is a tuple or a
    list of six values that are each an [int] or a [float], and raises
    [FontPartsError] exactly when it is not; what it returns is a tuple
    of six floats. *)
Theorem validateTransformationMatrix_spec (value : pyval) :
  (validators.validateTransformationMatrix value
   = Return (PTuple (map to_float (elements value)))
   <-> matrix_like value) /\
  (raises_FontPartsError (validators.validateTransformationMatrix value)
   <-> ~ matrix_like value) /\
  (forall r, validators.validateTransformationMatrix value = Return r ->
     exists fs : list float,
       length fs = 6%nat /\ r = PTuple (map PFloat fs)).
Proof.
  unfold validators.validateTransformationMatrix, matrix_like.
  destruct (is_tuple_or_list value) eqn:Hseq; simpl.
  2:{ repeat split; try discriminate.
      - intros [Habs _]. discriminate.
      - intros _ [Habs _]. discriminate.
      - intros _. eexists. reflexivity. }
  rewrite (len_elements _ Hseq).
  destruct (Z.of_nat (length (elements value)) =? 6) eqn:Hlen; simpl.
  2:{ apply Z.eqb_neq in Hlen. repeat split; try discriminate.
      - intros (_ & Hsix & _). lia.
      - intros _ (_ & Hsix & _). lia.
      - intros _. eexists. reflexivity. }
  apply Z.eqb_eq in Hlen.
  assert (Hsix : length (elements value) = 6%nat) by lia.
  destruct (validateTransformationMatrix_values_spec value (elements value))
    as [[Hall Hret]|[Hnot Hraise]].
  - rewrite Hret. simpl. repeat split; try assumption; try reflexivity.
    + intros [msg Hmsg]. discriminate.
    + intros Hnot. exfalso. apply Hnot. repeat split; assumption.
    + intros r [= <-].
      assert (Hfs : exists fs, map to_float (elements value) = map PFloat fs).
      { clear Hsix Hlen Hret. induction Hall as [|v vs Hv _ IH].
        - exists []. reflexivity.
        - destruct (to_float_is_float v Hv) as [f Hf].
          destruct IH as [fs Hfs]. exists (f :: fs). simpl. congruence. }
      destruct Hfs as [fs Hfs]. exists fs. split; [|congruence].
      rewrite <- (length_map PFloat), <- Hfs, length_map. exact Hsix.
  - destruct Hraise as [msg Hmsg]. rewrite Hmsg. simpl.
    repeat split; try discriminate.
    + intros (_ & _ & Hall). exfalso. exact (Hnot Hall).
    + intros _ (_ & _ & Hall). exact (Hnot Hall).
    + intros _. eexists. reflexivity.
Qed.

Example validateTransformationMatrix_floats :
  validators.validateTransformationMatrix
    (PList [PInt 1; PBool true; PFloat 0.5%float; PInt 0; PInt (-3);
            PInt 9007199254740993])
  = Return (PTuple [PFloat 1%float; PFloat 1%float; PFloat 0.5%float;
                    PFloat 0%float; PFloat (-3)%float;
                    PFloat 9007199254740992%float]).
Proof. vm_compute. reflexivity. Qed.

Example validateTransformationMatrix_long :
  raises_FontPartsError
    (validators.validateTransformationMatrix
       (PTuple [PInt 1; PInt 0; PInt 0; PInt 1; PLong 5; PInt 0])).
Proof. eexists. vm_compute. reflexivity. Qed.

(** ** [BaseDict.items] *)

(** The list of pairs a dictionary hands out. *)
Definition as_items (pairs : list (pyval * pyval)) : pyval :=
  PList (map (fun kv => PTuple [kv.1; kv.2]) pairs).

Section BaseDictItems.
Variables keyNormalizer valueNormalizer : pyval -> result pyval.

(** One pair of the comprehension in [items]. *)
Let normalized (kv kv' : pyval * pyval) : Prop :=
  keyNormalizer kv.1 = Return kv'.1 /\ valueNormalizer kv.2 = Return kv'.2.

Let body (item : pyval) : result pyval :=
  kv ← Base.BaseDict.unpack_pair item;
  key ← keyNormalizer kv.1;
  value ← valueNormalizer kv.2;
  mret (PTuple [key; value]).

Lemma items_comprehension (pairs : list (pyval * pyval)) (values : list pyval) :
  Forall2 (fun item b => body item = Return b)
          (map (fun kv => PTuple [kv.1; kv.2]) pairs) values
  <-> exists out, values = map (fun kv => PTuple [kv.1; kv.2]) out /\
                  Forall2 normalized pairs out.
Proof.
  revert values. induction pairs as [|[k v] pairs IH]; intros values; simpl.
  - split.
    + intros Hnil. inversion Hnil. exists []. split; [reflexivity|constructor].
    + intros (out & -> & Hout). inversion Hout. constructor.
  - split.
    + intros Hcons. inversion Hcons as [|? b ? rest Hb Hrest]; subst.
      apply IH in Hrest as (out & -> & Hout).
      unfold body in Hb. simpl in Hb.
      apply bind_Return_inv in Hb as (k' & Hk & Hb).
      apply bind_Return_inv in Hb as (v' & Hv & Hb).
      injection Hb as <-.
      exists ((k', v') :: out). split; [reflexivity|].
      constructor; [split; assumption|exact Hout].
    + intros (out & -> & Hout).
      inversion Hout as [|? [k' v'] ? rest [Hk Hv] Hrest]; subst. simpl in *.
      constructor.
      * unfold body. simpl. rewrite Hk. simpl. rewrite Hv. reflexivity.
      * apply IH. exists rest. split; [reflexivity|exact Hrest].
Qed.

End BaseDictItems.

(** C8.  With both normalizers set, [items()] returns the list of the
    pairs of [_items()] with the key normalizer applied to each key and the
    value normalizer to each value, in order.  With either normalizer
    [None] it never returns: where [_items()] returned, the call ends in
    the unbound local [values], and the raw pairs are not handed out. *)
Theorem BaseDict_items_spec (c : Base.BaseDict.methods) (self : object) :
  (forall kn vn pairs,
      Base.BaseDict.keyNormalizer c = Some kn ->
      Base.BaseDict.valueNormalizer c = Some vn ->
      Base.BaseDict._items c self = Return (as_items pairs) ->
      (forall r,
          Base.BaseDict.items c self = Return r <->
          exists out,
            r = as_items out /\
            Forall2 (fun kv kv' => kn kv.1 = Return kv'.1 /\
                                   vn kv.2 = Return kv'.2) pairs out) /\
      (forall f g,
          (forall k, kn k = Return (f k)) -> (forall v, vn v = Return (g v)) ->
          Base.BaseDict.items c self
          = Return (as_items (map (fun kv => (f kv.1, g kv.2)) pairs)))) /\
  (Base.BaseDict.keyNormalizer c = None \/
   Base.BaseDict.valueNormalizer c = None ->
   (forall r, Base.BaseDict.items c self <> Return r) /\
   (forall raw, Base.BaseDict._items c self = Return raw ->
                Base.BaseDict.items c self = Raise (UnboundLocalError "values"))).
Proof.
  split.
  - intros kn vn pairs Hkn Hvn Hitems.
    assert (Hiff : forall r,
      Base.BaseDict.items c self = Return r <->
      exists out,
        r = as_items out /\
        Forall2 (fun kv kv' => kn kv.1 = Return kv'.1 /\
                               vn kv.2 = Return kv'.2) pairs out).
    { intros r. unfold Base.BaseDict.items.
      rewrite Hitems, Hkn, Hvn. simpl. split.
      - intros Hr. apply bind_Return_inv in Hr as (values & Hvalues & Hr).
        injection Hr as <-.
        apply mapM_Return, items_comprehension in Hvalues as (out & -> & Hout).
        exists out. split; [reflexivity|exact Hout].
      - intros (out & -> & Hout).
        assert (Hm : mapM (fun item =>
                       kv ← Base.BaseDict.unpack_pair item;
                       key ← kn kv.1; value ← vn kv.2;
                       mret (PTuple [key; value]))
                     (map (fun kv => PTuple [kv.1; kv.2]) pairs)
                     = Return (map (fun kv => PTuple [kv.1; kv.2]) out)).
        { apply mapM_Return, items_comprehension.
          exists out. split; [reflexivity|exact Hout]. }
        rewrite Hm. reflexivity. }
    split; [exact Hiff|].
    intros f g Hf Hg. apply Hiff. eexists. split; [reflexivity|].
    clear -Hf Hg. induction pairs as [|kv pairs IH]; simpl; constructor.
    + split; [apply Hf|apply Hg].
    + exact IH.
  - intros Hnone.
    assert (Hcases : forall raw, Base.BaseDict._items c self = Return raw ->
              Base.BaseDict.items c self = Raise (UnboundLocalError "values")).
    { intros raw Hraw. unfold Base.BaseDict.items. rewrite Hraw. simpl.
      destruct Hnone as [-> | Hv]; [reflexivity|].
      rewrite Hv. destruct (Base.BaseDict.keyNormalizer c); reflexivity. }
    split; [|exact Hcases].
    intros r Hr.
    destruct (Base.BaseDict._items c self) as [raw|e] eqn:Hraw.
    + rewrite (Hcases raw eq_refl) in Hr. discriminate.
    + unfold Base.BaseDict.items in Hr. rewrite Hraw in Hr. discriminate.
Qed.

(** A kerning-like dictionary: keys are identifiers, values are numbers
    made floats; the environment holds one pair. *)
Definition sample_class : class :=
  {| __name__ := "RKerning"; namespace := ∅ |}.

Definition sample_object : object :=
  {| __class__ := sample_class; bases := []; __dict__ := ∅ |}.

Definition sample_dict : Base.BaseDict.methods := {|
  Base.BaseDict.keyNormalizer := Some validators.validateIdentifier;
  Base.BaseDict.valueNormalizer := Some (fun v => mret (to_float v));
  Base.BaseDict._items := fun _ => mret (as_items [(PStr "A", PInt 3)])
|}.

Lemma BaseDict_items_witness :
  Base.BaseDict.items sample_dict sample_object
  = Return (as_items [(PStr "A", PFloat 3%float)]).
Proof.
  apply (proj1 (proj1 (BaseDict_items_spec sample_dict sample_object)
                  validators.validateIdentifier
                  (fun v => mret (to_float v))
                  [(PStr "A", PInt 3)] eq_refl eq_refl eq_refl) _).
  exists [(PStr "A", PFloat 3%float)]. split; [reflexivity|].
  constructor; [|constructor]. split; vm_compute; reflexivity.
Defined.

(** ** [dynamicProperty] *)

(** No attribute of that name on the instance or on any of its classes. *)
Definition no_attribute (obj : object) (name : string) : Prop :=
  __dict__ obj !! name = None /\
  mro_lookup (__class__ obj :: bases obj) name = None.

(** The method a name resolves to on the instance's classes. *)
Definition resolves_to (obj : object) (name : string) (m : method) : Prop :=
  __dict__ obj !! name = None /\
  mro_lookup (__class__ obj :: bases obj) name = Some (Method m).

Lemma getattr_resolves (obj : object) (name : string) (m : method) :
  resolves_to obj name m -> getattr obj name = Method m.
Proof. intros [Hd Hm]. unfold getattr. rewrite Hd, Hm. reflexivity. Qed.

Lemma getattr_missing (obj : object) (name : string) :
  no_attribute obj name -> getattr obj name = Data PNone.
Proof. intros [Hd Hm]. unfold getattr. rewrite Hd, Hm. reflexivity. Qed.

(** C5.  Reading a [dynamicProperty] named [n] calls the method
    [_get_<n>] that the instance has at that moment and returns its
    result, and raises [FontPartsError] when there is none; assigning calls
    [_set_<n>] with the value, and raises [FontPartsError] when there is
    none.  For an instance of a subclass that defines only [_set_<n>],
    with [_get_<n>] inherited, assignment runs the subclass's setter and
    reading runs the inherited getter: the property is the same object. *)
Theorem dynamicProperty_spec (n : string) (obj : object) :
  let p := Base.dynamicProperty.__init__ n in
  (forall getter, resolves_to obj ("_get_" +:+ n) getter ->
     Base.dynamicProperty.__get__ p obj = call (Method getter) obj []) /\
  (no_attribute obj ("_get_" +:+ n) ->
     Base.dynamicProperty.__get__ p obj
     = Raise (FontPartsError ("no getter for " +:+ repr_str n))) /\
  (forall setter value, resolves_to obj ("_set_" +:+ n) setter ->
     Base.dynamicProperty.__set__ p obj value
     = (r ← call (Method setter) obj [value]; mret r.1)) /\
  (forall value, no_attribute obj ("_set_" +:+ n) ->
     Base.dynamicProperty.__set__ p obj value
     = Raise (FontPartsError ("no setter for " +:+ repr_str n))) /\
  (forall setter getter value,
     __dict__ obj !! ("_set_" +:+ n) = None ->
     __dict__ obj !! ("_get_" +:+ n) = None ->
     namespace (__class__ obj) !! ("_set_" +:+ n) = Some (Method setter) ->
     namespace (__class__ obj) !! ("_get_" +:+ n) = None ->
     mro_lookup (bases obj) ("_get_" +:+ n) = Some (Method getter) ->
     Base.dynamicProperty.__set__ p obj value
     = (r ← call (Method setter) obj [value]; mret r.1) /\
     Base.dynamicProperty.__get__ p obj = call (Method getter) obj []).
Proof.
  intros p.
  assert (Hget : forall getter, resolves_to obj ("_get_" +:+ n) getter ->
            Base.dynamicProperty.__get__ p obj = call (Method getter) obj []).
  { intros getter Hres. unfold Base.dynamicProperty.__get__. simpl.
    rewrite (getattr_resolves _ _ _ Hres). reflexivity. }
  assert (Hset : forall setter value, resolves_to obj ("_set_" +:+ n) setter ->
            Base.dynamicProperty.__set__ p obj value
            = (r ← call (Method setter) obj [value]; mret r.1)).
  { intros setter value Hres. unfold Base.dynamicProperty.__set__. simpl.
    rewrite (getattr_resolves _ _ _ Hres). reflexivity. }
  split; [exact Hget|]. split.
  { intros Hnone. unfold Base.dynamicProperty.__get__. simpl.
    rewrite (getattr_missing _ _ Hnone). reflexivity. }
  split; [exact Hset|]. split.
  { intros value Hnone. unfold Base.dynamicProperty.__set__. simpl.
    rewrite (getattr_missing _ _ Hnone). reflexivity. }
  intros setter getter value Hds Hdg Hsub Hnoget Hbase. split.
  - apply Hset. split; [exact Hds|]. simpl. rewrite Hsub. reflexivity.
  - apply Hget. split; [exact Hdg|]. simpl. rewrite Hnoget. exact Hbase.
Qed.

(** The example of the class's docstring: [BaseObject] defines
    [_get_foo] and [_set_foo], [MyObject] overrides [_set_foo] to store
    [value * 100]. *)
Definition doc_get_foo : method := fun d _ =>
  mret (d, default (PInt 1) (d !! "_foo")).

Definition doc_set_foo : method := fun d args =>
  match args with
  | [value] => mret (<["_foo" := value]> d, PNone)
  | _ => Raise (TypeError "_set_foo() takes exactly 2 arguments")
  end.

Definition doc_set_foo_100 : method := fun d args =>
  match args with
  | [PInt value] => mret (<["_foo" := PInt (value * 100)]> d, PNone)
  | _ => Raise (TypeError "unsupported operand")
  end.

Definition doc_BaseObject : class := {|
  __name__ := "BaseObject";
  namespace := {[ "_get_foo" := Method doc_get_foo;
                  "_set_foo" := Method doc_set_foo ]}
|}.

Definition doc_MyObject : class := {|
  __name__ := "MyObject";
  namespace := {[ "_set_foo" := Method doc_set_foo_100 ]}
|}.

Definition doc_m : object :=
  {| __class__ := doc_MyObject; bases := [doc_BaseObject]; __dict__ := ∅ |}.

Definition doc_foo : Base.dynamicProperty.t :=
  Base.dynamicProperty.__init__ "foo".

Lemma dynamicProperty_witness :
  Base.dynamicProperty.__set__ doc_foo doc_m (PInt 2)
  = Return (with_dict doc_m {[ "_foo" := PInt 200 ]}) /\
  Base.dynamicProperty.__get__ doc_foo
    (with_dict doc_m {[ "_foo" := PInt 200 ]})
  = Return (with_dict doc_m {[ "_foo" := PInt 200 ]}, PInt 200).
Proof.
  unfold doc_foo. split.
  - rewrite (proj1 (proj2 (proj2 (proj2 (proj2
              (dynamicProperty_spec "foo" doc_m))))
              doc_set_foo_100 doc_get_foo (PInt 2)
              eq_refl eq_refl eq_refl eq_refl eq_refl)).
    reflexivity.
  - assert (Hres : resolves_to (with_dict doc_m {[ "_foo" := PInt 200 ]})
                       ("_get_" +:+ "foo") doc_get_foo)
      by (split; vm_compute; reflexivity).
    rewrite (proj1 (dynamicProperty_spec "foo"
                      (with_dict doc_m {[ "_foo" := PInt 200 ]}))
               doc_get_foo Hres).
    reflexivity.
Defined.

(** ** [transformBy] on a point *)









(** On floats the same calls round: an origin other than [(0, 0)] can
    miss itself too.  Here [1 - 1e17] rounds to [-1e17]. *)
Lemma transformBy_float_rounds :
  point.transformBy 2 (point.new 1%float 0%float)
    (1e17%float, 0%float, 0%float, 1%float, 0%float, 0%float)
    (Some (1%float, 0%float))
  = Return (point.new 0%float 0%float).
Proof. vm_compute. reflexivity. Qed.

(** ** Parent references *)

Lemma deref_None (h : weakref.heap) (c : weakref.oid) :
  weakref.deref h (weakref.Ref c) = None <-> c ∉ h.
Proof.
  unfold weakref.deref. destruct (decide (c ∈ h)) as [Hin|Hout].
  - split; [discriminate|]. intros Hout. contradiction.
  - split; [intros _; exact Hout|reflexivity].
Qed.

Lemma deref_Some (h : weakref.heap) (c : weakref.oid) :
  c ∈ h -> weakref.deref h (weakref.Ref c) = Some c.
Proof.
  intros Hin. unfold weakref.deref.
  destruct (decide (c ∈ h)); [reflexivity|contradiction].
Qed.

(** A stored reference answers [None] exactly when nothing is stored or
    the referent is gone. *)
Definition unset_or_dead (h : weakref.heap) (stored : option weakref.ref)
  : Prop :=
  stored = None \/ exists c, stored = Some (weakref.Ref c) /\ c ∉ h.

Lemma stored_None (h : weakref.heap) (stored : option weakref.ref) :
  match stored with None => None | Some r => weakref.deref h r end = None
  <-> unset_or_dead h stored.
Proof.
  destruct stored as [[c]|].
  - rewrite deref_None. split.
    + intros Hout. right. exists c. split; [reflexivity|exact Hout].
    + intros [Habs|(c' & [= <-] & Hout)]; [discriminate|exact Hout].
  - split; [intros _; left; reflexivity|reflexivity].
Qed.

Section PointParent.
Context {T : Type} `{Number T}.

Lemma point_parent (w : Parents) (p : point.BasePoint T) :
  (point._get_contour w p = None
   <-> unset_or_dead (parents.alive w) (point._contour p)) /\
  (point._contour p = None ->
   point._get_glyph w p = Return None /\
   point._get_layer w p = Return None /\
   point._get_font w p = Return None) /\
  (forall c,
      point._contour p = None ->
      exists p', point._set_contour p c = Return p' /\
                 point._contour p' = weakref.Ref <$> c /\
                 point.x p' = point.x p /\ point.y p' = point.y p) /\
  (forall c, point._contour p <> None ->
             point._set_contour p c = Raise AssertionError).
Proof.
  split; [apply stored_None|]. split.
  - intros Hnone.
    unfold point._get_glyph, point._get_layer, point._get_font.
    rewrite Hnone. repeat split; reflexivity.
  - split.
    + intros c Hnone. unfold point._set_contour. rewrite Hnone.
      eexists. split; [reflexivity|]. repeat split; reflexivity.
    + intros c Hset. unfold point._set_contour.
      destruct (point._contour p); [reflexivity|contradiction].
Qed.

End PointParent.

Section SegmentParent.
Context {T : Type}.

Lemma segment_parent (w : Parents) (s : segment.BaseSegment) :
  (segment._get_contour (parents.alive w) s = None
   <-> unset_or_dead (parents.alive w) (segment._contour s)) /\
  (segment._contour s = None ->
   segment._get_glyph w s = Return None /\
   segment._get_layer w s = Return None /\
   segment._get_font w s = Return None) /\
  (forall c,
      segment._contour s = None ->
      exists s', segment._set_contour s c = Return s' /\
                 segment._contour s' = weakref.Ref <$> c /\
                 segment._points s' = segment._points s) /\
  (forall c, segment._contour s <> None ->
             segment._set_contour s c = Raise AssertionError).
Proof.
  split; [apply stored_None|]. split.
  - intros Hnone.
    unfold segment._get_glyph, segment._get_layer, segment._get_font.
    rewrite Hnone. repeat split; reflexivity.
  - split.
    + intros c Hnone. unfold segment._set_contour. rewrite Hnone.
      eexists. split; [reflexivity|]. split; reflexivity.
    + intros c Hset. unfold segment._set_contour.
      destruct (segment._contour s); [reflexivity|contradiction].
Qed.

End SegmentParent.

Lemma features_parent (h : weakref.heap) (f : features.BaseFeatures) :
  (features._get_font h f = None <-> unset_or_dead h (features._font f)) /\
  (forall font,
      features._font f = None ->
      features._set_font h f font
      = Return {| features._font := weakref.Ref <$> font |}) /\
  (forall font,
      features._font f <> None ->
      features._get_font h f = font ->
      features._set_font h f font
      = Return {| features._font := weakref.Ref <$> font |}) /\
  (forall font,
      features._font f <> None ->
      features._get_font h f <> font ->
      features._set_font h f font = Raise AssertionError).
Proof.
  split; [apply stored_None|].
  unfold features._set_font, features._get_font.
  destruct (features._font f) as [r|].
  - split; [discriminate|]. split.
    + intros font _ Hsame.
      rewrite bool_decide_eq_true_2 by exact Hsame. reflexivity.
    + intros font _ Hdiff.
      rewrite bool_decide_eq_false_2 by exact Hdiff. reflexivity.
  - split; [reflexivity|]. split; intros font Habs; contradiction.
Qed.

(** C4, as amended.  A [BasePoint], a [BaseSegment] and a [BaseFeatures]
    start with no parent stored.  The parent getter returns [None] exactly
    when no parent is stored or the stored parent is no longer alive: the
    reference is weak and does not keep it.  On a point or a segment an
    assignment succeeds while nothing is stored and violates the assertion
    once a parent is stored; on features a further assignment is accepted
    when the stored reference still answers the value assigned, and
    violates the assertion otherwise.  With no contour stored, [glyph],
    [layer] and [font] of a point or a segment return [None]. *)
Theorem parent_reference_spec (w : Parents) :
  (forall (T : Type) (x y : T), point._contour (point.new x y) = None) /\
  (forall pts, segment._contour (segment.new pts) = None) /\
  features._font features.new = None /\
  (forall (T : Type) (p : point.BasePoint T),
      (point._get_contour w p = None
       <-> unset_or_dead (parents.alive w) (point._contour p)) /\
      (point._contour p = None ->
       point._get_glyph w p = Return None /\
       point._get_layer w p = Return None /\
       point._get_font w p = Return None) /\
      (forall c,
          point._contour p = None ->
          exists p', point._set_contour p c = Return p' /\
                     point._contour p' = weakref.Ref <$> c /\
                     point.x p' = point.x p /\ point.y p' = point.y p) /\
      (forall c, point._contour p <> None ->
                 point._set_contour p c = Raise AssertionError)) /\
  (forall s : segment.BaseSegment,
      (segment._get_contour (parents.alive w) s = None
       <-> unset_or_dead (parents.alive w) (segment._contour s)) /\
      (segment._contour s = None ->
       segment._get_glyph w s = Return None /\
       segment._get_layer w s = Return None /\
       segment._get_font w s = Return None) /\
      (forall c,
          segment._contour s = None ->
          exists s', segment._set_contour s c = Return s' /\
                     segment._contour s' = weakref.Ref <$> c /\
                     segment._points s' = segment._points s) /\
      (forall c, segment._contour s <> None ->
                 segment._set_contour s c = Raise AssertionError)) /\
  (forall f : features.BaseFeatures,
      (features._get_font (parents.alive w) f = None
       <-> unset_or_dead (parents.alive w) (features._font f)) /\
      (forall font,
          features._font f = None ->
          features._set_font (parents.alive w) f font
          = Return {| features._font := weakref.Ref <$> font |}) /\
      (forall font,
          features._font f <> None ->
          features._get_font (parents.alive w) f = font ->
          features._set_font (parents.alive w) f font
          = Return {| features._font := weakref.Ref <$> font |}) /\
      (forall font,
          features._font f <> None ->
          features._get_font (parents.alive w) f <> font ->
          features._set_font (parents.alive w) f font = Raise AssertionError)).
Proof.
  split; [reflexivity|]. split; [reflexivity|]. split; [reflexivity|].
  split; [|split].
  - intros T p. exact (point_parent w p).
  - intros s. exact (segment_parent w s).
  - intros f. exact (features_parent (parents.alive w) f).
Qed.

(** A world with one live object, and one with none. *)
Definition one_alive : Parents := {|
  parents.alive := {[ 1%nat ]};
  contour_glyph := fun _ => None;
  glyph_layer := fun _ => None;
  glyph_font := fun _ => None
|}.

Definition none_alive : Parents := {|
  parents.alive := ∅;
  contour_glyph := fun _ => None;
  glyph_layer := fun _ => None;
  glyph_font := fun _ => None
|}.

Definition attached_point : point.BasePoint Z :=
  {| point._contour := Some (weakref.Ref 1%nat); point.x := 0; point.y := 0 |}.

Lemma parent_reference_witness :
  point._set_contour attached_point (Some 2%nat) = Raise AssertionError /\
  point._get_glyph one_alive (point.new 0 0) = Return None.
Proof.
  pose proof (proj1 (proj2 (proj2 (proj2 (parent_reference_spec one_alive)))))
    as Hpoint.
  split.
  - apply (proj2 (proj2 (proj2 (Hpoint Z attached_point)))).
    discriminate.
  - apply (proj1 (proj2 (Hpoint Z (point.new 0 0)))). reflexivity.
Defined.

(** C4, the claim as stated fails twice.  Features take a second
    assignment of the font they already have without complaint; and a
    point whose contour was assigned and has since died answers [None]
    for its contour. *)
Lemma parent_assigned_twice_or_dead :
  (f ← features._set_font (parents.alive one_alive) features.new (Some 1%nat);
   features._set_font (parents.alive one_alive) f (Some 1%nat))
  = Return {| features._font := Some (weakref.Ref 1%nat) |} /\
  (p ← point._set_contour (point.new 0 0) (Some 1%nat);
   mret (point._get_contour none_alive p))
  = Return None.
Proof. split; vm_compute; reflexivity. Qed.

(** ** [newLayer] with a name the font already has *)

Section FontLayers.
Context {Color : Type}.
Variable normalizeLayerName : string -> result string.
Variable normalizeColor : Color -> result Color.

Local Abbreviation Font := (font.BaseFont Color).

(** Two states of a font with the same layers under the same names. *)
Definition same_layers (f f' : Font) : Prop :=
  font.self_ f' = font.self_ f /\
  font.layers f' = font.layers f /\
  font.layerOrder f' = font.layerOrder f /\
  forall k, font.name <$> (font.objects f' !! k)
            = font.name <$> (font.objects f !! k).

(** The layer [k] knows its font. *)
Definition attached (f : Font) (k : nat) : Prop :=
  exists l, font.objects f !! k = Some l /\ font.font l <> None.

Lemma same_layers_refl (f : Font) : same_layers f f.
Proof. repeat split; reflexivity. Qed.

Lemma same_layers_trans (f g h : Font) :
  same_layers f g -> same_layers g h -> same_layers f h.
Proof.
  intros (Hs & Hl & Ho & Hn) (Hs' & Hl' & Ho' & Hn').
  split; [congruence|]. split; [congruence|]. split; [congruence|].
  intros k. rewrite Hn'. apply Hn.
Qed.

Lemma with_objects_same (f : Font) : font.with_objects f (font.objects f) = f.
Proof. destruct f; reflexivity. Qed.

(** Replacing a layer by one of the same name keeps the layers. *)
Lemma replace_same_layers (f : Font) (k : nat) (l l' : font.Layer Color) :
  font.objects f !! k = Some l -> font.name l' = font.name l ->
  same_layers f (font.with_objects f (<[k := l']> (font.objects f))).
Proof.
  intros Hk Hname. repeat split; try reflexivity.
  intros j. simpl. destruct (decide (k = j)) as [<-|Hne].
  - rewrite lookup_insert_eq, Hk. simpl. congruence.
  - rewrite lookup_insert_ne by exact Hne. reflexivity.
Qed.

Lemma replace_attached (f : Font) (k j : nat) (l l' : font.Layer Color) :
  font.objects f !! k = Some l ->
  (font.font l <> None -> font.font l' <> None) ->
  attached f j ->
  attached (font.with_objects f (<[k := l']> (font.objects f))) j.
Proof.
  intros Hk Hfont (lj & Hj & Hset). unfold attached. simpl.
  destruct (decide (k = j)) as [<-|Hne].
  - rewrite lookup_insert_eq. exists l'. split; [reflexivity|].
    apply Hfont. congruence.
  - rewrite lookup_insert_ne by exact Hne. exists lj. split; assumption.
Qed.

Lemma setFontInLayer_spec (f f' : Font) (k : nat) :
  font._setFontInLayer f k = Return f' ->
  same_layers f f' /\ attached f' k /\ (forall j, attached f j -> attached f' j).
Proof.
  unfold font._setFontInLayer, font.the_layer.
  destruct (font.objects f !! k) as [l|] eqn:Hk; [|discriminate]. simpl.
  destruct (font.font l) as [o|] eqn:Hfont.
  - intros [= <-]. split; [apply same_layers_refl|]. split.
    + exists l. split; [exact Hk|]. congruence.
    + intros j Hj. exact Hj.
  - intros [= <-]. split.
    + eapply replace_same_layers; [exact Hk|reflexivity].
    + split.
      * exists {| font.name := font.name l; font.color := font.color l;
                  font.font := Some (font.self_ f) |}.
        simpl. rewrite lookup_insert_eq. split; [reflexivity|discriminate].
      * intros j Hj. eapply replace_attached; [exact Hk| |exact Hj].
        intros _. discriminate.
Qed.

Lemma setFontInLayer_attached (f : Font) (k : nat) :
  attached f k -> font._setFontInLayer f k = Return f.
Proof.
  intros (l & Hk & Hfont). unfold font._setFontInLayer, font.the_layer.
  rewrite Hk. simpl. destruct (font.font l); [reflexivity|contradiction].
Qed.

Lemma setFontInLayers_spec (ls : list nat) (f f' : Font) :
  font._setFontInLayers f ls = Return f' ->
  same_layers f f' /\ Forall (attached f') ls /\
  (forall j, attached f j -> attached f' j).
Proof.
  revert f. induction ls as [|k ls IH]; intros f; simpl.
  - intros [= <-]. split; [apply same_layers_refl|]. split; [constructor|].
    intros j Hj. exact Hj.
  - intros Hrun. apply bind_Return_inv in Hrun as (g & Hg & Hrun).
    apply setFontInLayer_spec in Hg as (Hfg & Hk & Hkeep).
    apply IH in Hrun as (Hgf & Hall & Hkeep').
    split; [eapply same_layers_trans; eassumption|]. split.
    + constructor; [apply Hkeep', Hk|exact Hall].
    + intros j Hj. apply Hkeep', Hkeep, Hj.
Qed.

Lemma setFontInLayers_attached (ls : list nat) (f : Font) :
  Forall (attached f) ls -> font._setFontInLayers f ls = Return f.
Proof.
  induction 1 as [|k ls Hk _ IH]; simpl; [reflexivity|].
  rewrite (setFontInLayer_attached _ _ Hk). simpl. exact IH.
Qed.

(** The search for a name looks at the names only. *)
Lemma getLayer_loop_same (f f' : Font) (ls : list nat) (n : string) :
  (forall k, font.name <$> (font.objects f' !! k)
             = font.name <$> (font.objects f !! k)) ->
  font._getLayer_loop f' ls n = font._getLayer_loop f ls n.
Proof.
  intros Hnames. induction ls as [|k ls IH]; simpl; [reflexivity|].
  unfold font.the_layer. specialize (Hnames k).
  destruct (font.objects f' !! k) as [l'|], (font.objects f !! k) as [l|];
    simpl in *; try discriminate; [|reflexivity].
  injection Hnames as ->. destruct (decide (font.name l = n)); [reflexivity|].
  exact IH.
Qed.

Lemma getLayer_loop_found (f : Font) (ls : list nat) (n : string) (k : nat) :
  font._getLayer_loop f ls n = Return k ->
  k ∈ ls /\ exists l, font.objects f !! k = Some l /\ font.name l = n.
Proof.
  induction ls as [|j ls IH]; simpl; [discriminate|].
  unfold font.the_layer.
  destruct (font.objects f !! j) as [l|] eqn:Hj; [|discriminate]. simpl.
  destruct (decide (font.name l = n)) as [Hn|Hn].
  - intros [= <-]. split; [left|]. exists l. split; assumption.
  - intros Hrest. apply IH in Hrest as [Hin Hl]. split; [right; exact Hin|exact Hl].
Qed.

(** What [getLayer] leaves behind: the same layers, each knowing its
    font. *)
Lemma getLayer_spec (f g : Font) (n : string) (k : nat) :
  font.getLayer normalizeLayerName f n = Return (g, k) ->
  same_layers f g /\ Forall (attached g) (font.layers g) /\
  k ∈ font.layers g /\
  exists n', normalizeLayerName n = Return n' /\
             font._getLayer_loop g (font.layers g) n' = Return k.
Proof.
  unfold font.getLayer, font._getLayer, font._get_base_layers.
  intros Hrun. apply bind_Return_inv in Hrun as (n' & Hn' & Hrun).
  apply bind_Return_inv in Hrun as ([fa k'] & Hloop & Hrun).
  apply bind_Return_inv in Hrun as (g' & Hset & Hrun).
  injection Hrun as <- <-. simpl in *.
  apply bind_Return_inv in Hloop as ([fb ls] & Hall & Hloop).
  apply bind_Return_inv in Hloop as (k'' & Hfind & Hloop).
  injection Hloop as <- <-. simpl in *.
  apply bind_Return_inv in Hall as (fc & Hall & Heq).
  injection Heq as <- <-.
  apply setFontInLayers_spec in Hall as (Hfa & Hatt & _).
  apply setFontInLayer_spec in Hset as (Hag & _ & Hkeep).
  pose proof (same_layers_trans _ _ _ Hfa Hag) as Hfg.
  destruct Hag as (_ & Hlayers & _ & Hnames).
  destruct Hfa as (_ & Hlayers' & _ & _).
  split; [exact Hfg|]. rewrite Hlayers, Hlayers'. split.
  - eapply Forall_impl; [exact Hatt|]. intros j Hj. apply Hkeep, Hj.
  - split; [apply (getLayer_loop_found _ _ _ _ Hfind)|].
    exists n'. split; [exact Hn'|].
    rewrite (getLayer_loop_same fc g' _ _ Hnames). exact Hfind.
Qed.

(** On a font whose layers all know their font, [getLayer] changes
    nothing. *)
Lemma getLayer_settled (g : Font) (n n' : string) (k : nat) :
  Forall (attached g) (font.layers g) ->
  normalizeLayerName n = Return n' ->
  font._getLayer_loop g (font.layers g) n' = Return k ->
  font.getLayer normalizeLayerName g n = Return (g, k).
Proof.
  intros Hatt Hn' Hfind.
  unfold font.getLayer, font._getLayer, font._get_base_layers.
  rewrite Hn'. simpl.
  rewrite (setFontInLayers_attached _ _ Hatt). simpl.
  rewrite Hfind. simpl.
  rewrite setFontInLayer_attached; [reflexivity|].
  rewrite Forall_forall in Hatt. apply Hatt.
  apply (getLayer_loop_found _ _ _ _ Hfind).
Qed.

Lemma set_color_spec (g h : Font) (k : nat) (c : Color) :
  font.set_color normalizeColor g k c = Return h ->
  same_layers g h /\ (forall j, attached g j -> attached h j) /\
  font.set_color normalizeColor h k c = Return h.
Proof.
  unfold font.set_color, font.the_layer.
  intros Hrun. apply bind_Return_inv in Hrun as (c' & Hc & Hrun).
  destruct (font.objects g !! k) as [l|] eqn:Hk; [|discriminate].
  simpl in Hrun. injection Hrun as <-. split.
  - eapply replace_same_layers; [exact Hk|reflexivity].
  - split.
    + intros j Hj. eapply replace_attached; [exact Hk| |exact Hj].
      intros Hfont. exact Hfont.
    + rewrite Hc. simpl. rewrite lookup_insert_eq. simpl.
      rewrite insert_insert_eq. reflexivity.
Qed.

End FontLayers.

(** C9.  When the normalized name is already in [layerOrder],
    [newLayer(name, color)] is [getLayer] of that name followed, exactly
    when [color] is not [None], by [layer.color = color]; it returns the
    layer [getLayer] found; it does not depend on [_newLayer], which it
    never calls; and calling it again with the same arguments returns the
    same layer and leaves the font as the first call left it. *)
Theorem newLayer_existing {Color : Type}
    (normalizeLayerName : string -> result string)
    (normalizeColor : Color -> result Color)
    (_newLayer : font.BaseFont Color -> string -> option Color
                 -> result (font.BaseFont Color * nat))
    (f : font.BaseFont Color) (name_ n : string) (color_ : option Color) :
  normalizeLayerName name_ = Return n ->
  n ∈ font.layerOrder f ->
  font.newLayer normalizeLayerName normalizeColor _newLayer f name_ color_
  = (r ← font.getLayer normalizeLayerName f n;
     match color_ with
     | Some c =>
         f' ← font.set_color normalizeColor r.1 r.2 c;
         mret (f', r.2)
     | None => mret r
     end) /\
  (forall other,
      font.newLayer normalizeLayerName normalizeColor other f name_ color_
      = font.newLayer normalizeLayerName normalizeColor _newLayer f name_ color_) /\
  (forall f1 layer,
      font.newLayer normalizeLayerName normalizeColor _newLayer f name_ color_
      = Return (f1, layer) ->
      font.newLayer normalizeLayerName normalizeColor _newLayer f1 name_ color_
      = Return (f1, layer)).
Proof.
  intros Hname Hin.
  assert (Hexisting : forall hook g, font.layerOrder g = font.layerOrder f ->
    font.newLayer normalizeLayerName normalizeColor hook g name_ color_
    = (r ← font.getLayer normalizeLayerName g n;
       match color_ with
       | Some c =>
           f' ← font.set_color normalizeColor r.1 r.2 c;
           mret (f', r.2)
       | None => mret r
       end)).
  { intros hook g Horder. unfold font.newLayer, font._get_base_layerOrder.
    rewrite Hname. simpl. unfold sequences.contains.
    rewrite Horder, bool_decide_eq_true_2 by exact Hin. reflexivity. }
  split; [apply Hexisting; reflexivity|]. split.
  { intros other. rewrite !Hexisting by reflexivity. reflexivity. }
  intros f1 layer Hfirst. rewrite Hexisting in Hfirst by reflexivity.
  apply bind_Return_inv in Hfirst as ([g k] & Hget & Hcolor). simpl in Hcolor.
  apply getLayer_spec in Hget as (Hfg & Hatt & Hk & n' & Hn' & Hfind).
  destruct color_ as [c|].
  - apply bind_Return_inv in Hcolor as (h & Hset & Hret).
    injection Hret as <- <-.
    apply set_color_spec in Hset as (Hgh & Hkeep & Hagain).
    destruct Hgh as (Hself & Hlayers & Horder & Hnames).
    rewrite Hexisting.
    2:{ rewrite Horder. apply Hfg. }
    rewrite (getLayer_settled normalizeLayerName h n n' k).
    + simpl. rewrite Hagain. reflexivity.
    + rewrite Hlayers. eapply Forall_impl; [exact Hatt|].
      intros j Hj. apply Hkeep, Hj.
    + exact Hn'.
    + rewrite Hlayers, (getLayer_loop_same g h _ _ Hnames). exact Hfind.
  - injection Hcolor as <- <-.
    rewrite Hexisting by apply Hfg.
    rewrite (getLayer_settled normalizeLayerName g n n' k Hatt Hn' Hfind).
    reflexivity.
Qed.

(** A font with two layers; the second does not know its font yet. *)
Definition two_layers : font.BaseFont (Z * Z * Z * Z) := {|
  font.self_ := 7%nat;
  font.objects :=
    {[ 0%nat := {| font.name := "foreground"; font.color := None;
                   font.font := Some 7%nat |};
       1%nat := {| font.name := "background"; font.color := None;
                   font.font := None |} ]};
  font.layers := [0%nat; 1%nat];
  font.layerOrder := ["foreground"; "background"]
|}.

Lemma newLayer_existing_witness :
  exists f1,
    font.newLayer (fun n => mret n) (fun c => mret c)
      (fun _ _ _ => Raise (FontPartsError "not implemented"))
      two_layers "background" (Some (1, 0, 0, 1))
    = Return (f1, 1%nat) /\
    font.newLayer (fun n => mret n) (fun c => mret c)
      (fun _ _ _ => Raise (FontPartsError "not implemented"))
      f1 "background" (Some (1, 0, 0, 1))
    = Return (f1, 1%nat).
Proof.
  eexists.
  assert (Hfirst :
    font.newLayer (fun n => mret n) (fun c => mret c)
      (fun _ _ _ => Raise (FontPartsError "not implemented"))
      two_layers "background" (Some (1, 0, 0, 1))
    = Return (font.with_objects two_layers
                {[ 0%nat := {| font.name := "foreground"; font.color := None;
                               font.font := Some 7%nat |};
                   1%nat := {| font.name := "background";
                               font.color := Some (1, 0, 0, 1);
                               font.font := Some 7%nat |} ]}, 1%nat))
    by (vm_compute; reflexivity).
  split; [exact Hfirst|].
  apply (proj2 (proj2 (newLayer_existing
                         (fun n => mret n) (fun c => mret c)
                         (fun _ _ _ => Raise (FontPartsError "not implemented"))
                         two_layers "background" "background"
                         (Some (1, 0, 0, 1)) eq_refl
                         ltac:(apply elem_of_cons; right;
                               apply elem_of_cons; left; reflexivity)))).
  exact Hfirst.
Defined.

(** ** Python sequences, facts *)

Section SequenceFacts.
Context {A : Type} `{EqDecision A}.

Lemma getitem_nat (l : list A) (i : nat) (a : A) :
  l !! i = Some a -> sequences.getitem l (Z.of_nat i) = Return a.
Proof.
  intros Hi. unfold sequences.getitem. cbv zeta.
  assert (Hneg : (Z.of_nat i <? 0) = false) by (apply Z.ltb_ge; lia).
  rewrite !Hneg, Nat2Z.id, Hi. reflexivity.
Qed.

Lemma getitem_negative (l : list A) (k : Z) (a : A) :
  k < 0 -> 0 <= k + Z.of_nat (length l) ->
  l !! Z.to_nat (k + Z.of_nat (length l)) = Some a ->
  sequences.getitem l k = Return a.
Proof.
  intros Hk Hlen Hi. unfold sequences.getitem. cbv zeta.
  assert (Hneg : (k <? 0) = true) by (apply Z.ltb_lt; lia).
  assert (Hpos : (k + Z.of_nat (length l) <? 0) = false)
    by (apply Z.ltb_ge; lia).
  rewrite Hneg, Hpos, Hi. reflexivity.
Qed.

Lemma getitem_last (l : list A) (a : A) :
  sequences.getitem (l ++ [a]) (-1) = Return a.
Proof.
  apply getitem_negative; rewrite ?length_app; simpl; [lia|lia|].
  replace (Z.to_nat (-1 + Z.of_nat (length l + 1))) with (length l) by lia.
  apply list_lookup_middle. reflexivity.
Qed.

(** [l[i - 1]] is the item before [i], and the last one for [i = 0]. *)
Lemma getitem_previous (l : list A) (i : nat) (a : A) :
  l !! (if decide (i = O) then length l - 1 else i - 1)%nat = Some a ->
  sequences.getitem l (Z.of_nat i - 1) = Return a.
Proof.
  intros Hi.
  assert (Hlen : (length l > 0)%nat).
  { apply lookup_lt_Some in Hi. lia. }
  destruct (decide (i = O)) as [->|Hpos].
  - apply getitem_negative; [lia|lia|].
    replace (Z.to_nat (Z.of_nat 0 - 1 + Z.of_nat (length l)))
      with (length l - 1)%nat by lia.
    exact Hi.
  - replace (Z.of_nat i - 1) with (Z.of_nat (i - 1)) by lia.
    apply getitem_nat, Hi.
Qed.

Lemma but_last_app (l : list A) (a : A) :
  sequences.but_last (l ++ [a]) = l.
Proof.
  unfold sequences.but_last. rewrite length_app. simpl.
  replace (length l + 1 - 1)%nat with (length l) by lia.
  apply take_app_length.
Qed.

Lemma index_Return (l : list A) (x : A) (i : nat) :
  sequences.index l x = Return i ->
  l !! i = Some x /\ x ∉ take i l.
Proof.
  revert i. induction l as [|a l IH]; intros i; simpl; [discriminate|].
  destruct (decide (a = x)) as [->|Hne].
  - intros [= <-]. split; [reflexivity|]. simpl. apply not_elem_of_nil.
  - intros Hrest. apply bind_Return_inv in Hrest as (j & Hj & [= <-]).
    apply IH in Hj as [Hj Hnot]. split; [exact Hj|]. simpl.
    intros Hin. apply elem_of_cons in Hin as [->|Hin]; [congruence|].
    exact (Hnot Hin).
Qed.

Lemma index_elem_of (l : list A) (x : A) :
  x ∈ l -> exists i, sequences.index l x = Return i.
Proof.
  induction l as [|a l IH]; intros Hin; [inversion Hin|]. simpl.
  destruct (decide (a = x)) as [->|Hne]; [exists O; reflexivity|].
  apply elem_of_cons in Hin as [->|Hin]; [congruence|].
  destruct (IH Hin) as [i Hi]. exists (S i). rewrite Hi. reflexivity.
Qed.

Lemma filter_all (P : A -> Prop) `{forall a, Decision (P a)} (l : list A) :
  Forall P l -> filter P l = l.
Proof.
  induction 1 as [|a l Ha _ IH]; [reflexivity|].
  rewrite filter_cons_True by exact Ha. f_equal. exact IH.
Qed.

(** With no repeats, deleting the first [x] leaves the items other than
    [x]. *)
Lemma delete_index_filter (l : list A) (x : A) (i : nat) :
  NoDup l -> sequences.index l x = Return i ->
  delete i l = filter (fun a => a <> x) l.
Proof.
  revert i. induction l as [|a l IH]; intros i Hnd; simpl; [discriminate|].
  apply NoDup_cons in Hnd as [Hnotin Hnd].
  destruct (decide (a = x)) as [->|Hne].
  - intros [= <-]. simpl.
    rewrite filter_cons_False by (intros Habs; apply Habs; reflexivity).
    symmetry. apply filter_all.
    apply Forall_forall. intros b Hb ->. contradiction.
  - intros Hrest. apply bind_Return_inv in Hrest as (j & Hj & [= <-]).
    rewrite filter_cons_True by exact Hne. simpl. f_equal.
    apply IH; assumption.
Qed.

Lemma insert_at_lookup (l : list A) (i : nat) (x : A) :
  (i <= length l)%nat -> sequences.insert_at i x l !! i = Some x.
Proof.
  intros Hi. unfold sequences.insert_at.
  apply list_lookup_middle. rewrite length_take. lia.
Qed.

Lemma insert_at_twice (l : list A) (i : nat) (x y : A) :
  (i <= length l)%nat ->
  sequences.insert_at i x (sequences.insert_at i y l)
  = (take i l ++ x :: y :: drop i l)%list.
Proof.
  intros Hi. unfold sequences.insert_at.
  rewrite take_app_length' by (rewrite length_take; lia).
  rewrite drop_app_length' by (rewrite length_take; lia).
  reflexivity.
Qed.

End SequenceFacts.

Lemma index_first {A : Type} `{EqDecision A} (l : list A) (x : A) (i : nat) :
  l !! i = Some x -> x ∉ take i l -> sequences.index l x = Return i.
Proof.
  revert i. induction l as [|a l IH]; intros i Hi Hfirst; [discriminate|].
  simpl. destruct i as [|i]; simpl in *.
  - injection Hi as ->. rewrite decide_True by reflexivity. reflexivity.
  - destruct (decide (a = x)) as [->|Hne].
    + exfalso. apply Hfirst. left.
    + rewrite (IH i Hi); [reflexivity|].
      intros Hin. apply Hfirst. right. exact Hin.
Qed.

Lemma index_by_first {A : Type} (eq : A -> A -> bool) (l : list A)
    (x a : A) (i : nat) :
  l !! i = Some a -> eq a x = true ->
  Forall (fun b => eq b x = false) (take i l) ->
  sequences.index_by eq l x = Return i.
Proof.
  revert i. induction l as [|b l IH]; intros i Hi Ha Hfirst; [discriminate|].
  simpl. destruct i as [|i]; simpl in *.
  - injection Hi as ->. rewrite Ha. reflexivity.
  - apply Forall_cons in Hfirst as [Hb Hfirst]. rewrite Hb.
    rewrite (IH i Hi Ha Hfirst). reflexivity.
Qed.

(** ** Setting the type of a segment *)

Section SegmentType.
Context {T : Type}.
Variable normalizeSegmentType : string -> result string.
Variable normalizePointType : string -> result string.
Variable segments : segment.World T -> list segment.BaseSegment.

Local Abbreviation World := (segment.World T).
Local Abbreviation set_type :=
  (segment._set_type normalizeSegmentType normalizePointType segments).

(** The world with the type of the point [p] set to [t]. *)
Definition retyped (w : World) (p : nat) (pt : segment.Point T) (t : string)
  : World :=
  {| segment.alive := segment.alive w;
     segment.objects :=
       <[p := {| segment.x := segment.x pt; segment.y := segment.y pt;
                 segment.type := t |}]> (segment.objects w);
     segment.points := segment.points w |}.

(** The world with the contour's points replaced. *)
Definition with_points (w : World) (pts : list nat) : World :=
  {| segment.alive := segment.alive w;
     segment.objects := segment.objects w;
     segment.points := pts |}.

(** An off-curve point at the coordinates of [pt]. *)
Definition offcurve_at (pt : segment.Point T) : segment.Point T :=
  {| segment.x := segment.x pt; segment.y := segment.y pt;
     segment.type := "offcurve" |}.

Lemma with_points_same (w : World) : with_points w (segment.points w) = w.
Proof. destruct w; reflexivity. Qed.

Lemma the_point_Some (w : World) (p : nat) (pt : segment.Point T) :
  segment.objects w !! p = Some pt -> segment.the_point w p = Return pt.
Proof. intros Hp. unfold segment.the_point. rewrite Hp. reflexivity. Qed.

Lemma set_point_type_retyped (w : World) (p : nat) (pt : segment.Point T)
    (t : string) :
  normalizePointType t = Return t ->
  segment.objects w !! p = Some pt ->
  segment.set_point_type normalizePointType w p t = Return (retyped w p pt t).
Proof.
  intros Ht Hp. unfold segment.set_point_type, segment.the_point.
  rewrite Ht. simpl. rewrite Hp. reflexivity.
Qed.

Lemma onCurve_last (self : segment.BaseSegment) (offs : list nat) (on : nat) :
  segment._points self = (offs ++ [on])%list ->
  segment._get_onCurve self = Return on /\ segment._get_offCurve self = offs.
Proof.
  intros Hpts. unfold segment._get_onCurve, segment._get_offCurve,
    segment._get_points. rewrite Hpts. split.
  - apply getitem_last.
  - apply but_last_app.
Qed.

(** Removing points that are all in a contour without repeats leaves the
    other points, in order. *)
Lemma removePoints_filter (offs : list nat) (w : World) :
  NoDup (segment.points w) -> NoDup offs ->
  (forall p, p ∈ offs -> p ∈ segment.points w) ->
  segment.removePoints w offs
  = Return (with_points w (filter (fun p => p ∉ offs) (segment.points w))).
Proof.
  revert w. induction offs as [|p offs IH]; intros w Hnd Hoffs Hsub; simpl.
  - rewrite filter_all, with_points_same; [reflexivity|].
    apply Forall_forall. intros q _. apply not_elem_of_nil.
  - apply NoDup_cons in Hoffs as [Hp Hoffs].
    destruct (index_elem_of (segment.points w) p) as [i Hi].
    { apply Hsub. left. }
    unfold segment.removePoint. rewrite Hi. simpl.
    rewrite (delete_index_filter _ _ _ Hnd Hi).
    rewrite IH; simpl.
    + unfold with_points. simpl. do 2 f_equal.
      rewrite list_filter_filter. apply list_filter_iff.
      intros q. rewrite not_elem_of_cons. tauto.
    + apply NoDup_filter, Hnd.
    + exact Hoffs.
    + intros q Hq. apply list_elem_of_filter. split.
      * intros ->. contradiction.
      * apply Hsub. right. exact Hq.
Qed.

(** C3.  For a segment whose last point is its on-curve point, setting
    the type works as follows.  With the new type equal to the current
    one nothing changes.  With a different type and no parent contour the
    call raises [FontPartsError].  With a parent contour: between "move"
    and "line" only the type of the on-curve point changes; otherwise,
    for a new type other than "curve" and "qcurve", the off-curve points
    of the segment are removed from the contour and the on-curve point
    gets the new type; for a new type "curve" or "qcurve" on a "move" or
    "line" segment two off-curve points are inserted just before the
    on-curve point, the first at the coordinates of the on-curve point of
    the previous segment and the second at those of this segment's, the
    segment's points become these two and the on-curve point, and the
    on-curve point gets the new type. *)
Theorem set_type_spec (w : World) (self : segment.BaseSegment)
    (offs : list nat) (on : nat) (onPoint : segment.Point T)
    (oldType newType : string) :
  segment._points self = (offs ++ [on])%list ->
  segment.objects w !! on = Some onPoint ->
  segment._get_base_type normalizeSegmentType normalizePointType w self
  = Return oldType ->
  normalizePointType newType = Return newType ->
  (oldType = newType -> set_type w self newType = Return (w, self)) /\
  (oldType <> newType ->
   segment._get_contour (segment.alive w) self = None ->
   set_type w self newType
   = Raise (FontPartsError "The segment does not belong to a contour.")) /\
  (oldType <> newType ->
   segment._get_contour (segment.alive w) self <> None ->
   (newType ∈ ["move"; "line"] -> oldType ∈ ["move"; "line"] ->
    set_type w self newType = Return (retyped w on onPoint newType, self)) /\
   (newType ∉ ["curve"; "qcurve"] ->
    ~ (newType ∈ ["move"; "line"] /\ oldType ∈ ["move"; "line"]) ->
    NoDup (segment.points w) -> NoDup offs ->
    (forall p, p ∈ offs -> p ∈ segment.points w) ->
    set_type w self newType
    = Return (retyped
                (with_points w (filter (fun p => p ∉ offs) (segment.points w)))
                on onPoint newType,
              self)) /\
   (newType ∈ ["curve"; "qcurve"] -> oldType ∈ ["move"; "line"] ->
    forall (i j : nat) (this previous : segment.BaseSegment)
           (prevOffs : list nat) (prev : nat) (prevPoint : segment.Point T),
      segments w !! i = Some this -> segment.__eq__ this self = true ->
      Forall (fun s => segment.__eq__ s self = false) (take i (segments w)) ->
      segments w !! (if decide (i = O) then length (segments w) - 1
                     else i - 1)%nat = Some previous ->
      segment._points previous = (prevOffs ++ [prev])%list ->
      segment.objects w !! prev = Some prevPoint ->
      segment.points w !! j = Some on -> on ∉ take j (segment.points w) ->
      let off2 := length (segment.objects w) in
      let off1 := S (length (segment.objects w)) in
      set_type w self newType
      = Return
          ({| segment.alive := segment.alive w;
              segment.objects :=
                <[on := {| segment.x := segment.x onPoint;
                           segment.y := segment.y onPoint;
                           segment.type := newType |}]>
                  (segment.objects w
                   ++ [offcurve_at onPoint; offcurve_at prevPoint])%list;
              segment.points :=
                (take j (segment.points w)
                 ++ off1 :: off2 :: drop j (segment.points w))%list |},
           {| segment._contour := segment._contour self;
              segment._points := [off1; off2; on] |}))).
Proof.
  intros Hpts Hon Hold Hnew.
  destruct (onCurve_last self offs on Hpts) as [HonCurve HoffCurve].
  split.
  { intros ->. unfold segment._set_type. rewrite Hold. simpl.
    rewrite decide_True by reflexivity. reflexivity. }
  split.
  { intros Hdiff Hnone. unfold segment._set_type. rewrite Hold. simpl.
    rewrite decide_False by exact Hdiff. rewrite Hnone. reflexivity. }
  intros Hdiff Hsome.
  destruct (segment._get_contour (segment.alive w) self) as [contour|] eqn:Hc;
    [clear Hsome|contradiction].
  split; [|split].
  - intros HnewML HoldML. unfold segment._set_type. rewrite Hold. simpl.
    rewrite decide_False by exact Hdiff. rewrite Hc.
    unfold sequences.contains.
    rewrite !bool_decide_eq_true_2 by assumption. simpl.
    rewrite HonCurve. simpl.
    rewrite (set_point_type_retyped w on onPoint newType Hnew Hon). reflexivity.
  - intros HnotCQ HnotML Hnd Hoffs Hsub.
    unfold segment._set_type. rewrite Hold. simpl.
    rewrite decide_False by exact Hdiff. rewrite Hc.
    unfold sequences.contains.
    assert (Hfirst : bool_decide (newType ∈ ["move"; "line"])
                     && bool_decide (oldType ∈ ["move"; "line"]) = false).
    { apply andb_false_iff.
      destruct (decide (newType ∈ ["move"; "line"])) as [Hn|Hn];
        [|left; apply bool_decide_eq_false_2, Hn].
      right. apply bool_decide_eq_false_2. intros Ho. apply HnotML.
      split; assumption. }
    rewrite Hfirst.
    rewrite (bool_decide_eq_false_2 _ HnotCQ). simpl.
    rewrite HoffCurve, (removePoints_filter offs w Hnd Hoffs Hsub). simpl.
    rewrite HonCurve. simpl.
    rewrite (set_point_type_retyped _ on onPoint newType Hnew); [reflexivity|].
    exact Hon.
  - intros HnewCQ HoldML i j this previous prevOffs prev prevPoint
      Hthis Hself Hselffirst Hprevious Hprevpts Hprev Hj Hjfirst off2 off1.
    unfold segment._set_type. rewrite Hold. simpl.
    rewrite decide_False by exact Hdiff. rewrite Hc.
    unfold sequences.contains.
    assert (HnotML : bool_decide (newType ∈ ["move"; "line"]) = false).
    { apply bool_decide_eq_false_2. intros Hin.
      repeat (apply elem_of_cons in Hin as [->|Hin]);
        try (apply elem_of_nil in Hin; contradiction);
        repeat (apply elem_of_cons in HnewCQ as [HnewCQ|HnewCQ];
                [discriminate|]);
        apply elem_of_nil in HnewCQ; contradiction. }
    rewrite HnotML. simpl.
    rewrite (bool_decide_eq_true_2 _ HnewCQ). simpl.
    rewrite (index_by_first _ _ _ _ _ Hthis Hself Hselffirst). simpl.
    rewrite (getitem_previous _ _ _ Hprevious). simpl.
    destruct (onCurve_last previous prevOffs prev Hprevpts) as [Hprevon _].
    rewrite Hprevon, HonCurve. simpl.
    rewrite (the_point_Some w on onPoint Hon). cbn [mbind result_bind].
    rewrite (index_first _ _ _ Hj Hjfirst). cbn [mbind result_bind].
    assert (Hjlen : (j <= length (segment.points w))%nat).
    { apply lookup_lt_Some in Hj. lia. }
    rewrite (getitem_nat (sequences.insert_at j (length (segment.objects w))
                            (segment.points w)) j off2)
      by (apply insert_at_lookup, Hjlen).
    cbn [mbind result_bind].
    rewrite (the_point_Some _ prev prevPoint).
    2:{ simpl. apply lookup_app_l_Some, Hprev. }
    cbn [mbind result_bind].
    rewrite (getitem_nat _ j (length (segment.objects w ++ [offcurve_at onPoint]))).
    2:{ apply insert_at_lookup. unfold sequences.insert_at.
        rewrite length_app, length_take. simpl. rewrite length_drop. lia. }
    cbn [mbind result_bind mret result_ret fst snd].
    unfold segment._get_onCurve, segment._get_points.
    cbn [segment._points].
    assert (Hlast : forall a b : nat,
               sequences.getitem [a; b; on] (-1) = Return on)
      by (intros a b; apply (getitem_last [a; b] on)).
    rewrite Hlast.
    cbn [mbind result_bind].
    unfold segment.set_point_type. rewrite Hnew. cbn [mbind result_bind].
    rewrite (the_point_Some _ on onPoint).
    2:{ simpl. apply lookup_app_l_Some, lookup_app_l_Some, Hon. }
    cbn [mbind result_bind mret result_ret].
    unfold segment.insertPoint. simpl.
    rewrite (insert_at_twice _ _ _ _ Hjlen).
    rewrite <- app_assoc, !length_app. simpl.
    replace (length (segment.objects w) + 1)%nat with off1 by (unfold off1; lia).
    reflexivity.
Qed.

End SegmentType.

(** A closed contour of three lines; every segment is its on-curve
    point alone. *)
Definition triangle : segment.World Z := {|
  segment.alive := {[ 1%nat ]};
  segment.objects :=
    [ {| segment.x := 0; segment.y := 0; segment.type := "line" |};
      {| segment.x := 100; segment.y := 0; segment.type := "line" |};
      {| segment.x := 100; segment.y := 100; segment.type := "line" |} ];
  segment.points := [0%nat; 1%nat; 2%nat]
|}.

Definition line_segments (w : segment.World Z) : list segment.BaseSegment :=
  map (fun p => {| segment._contour := Some (weakref.Ref 1%nat);
                   segment._points := [p] |}) (segment.points w).

Definition second_line : segment.BaseSegment :=
  {| segment._contour := Some (weakref.Ref 1%nat); segment._points := [1%nat] |}.

Lemma set_type_witness :
  segment._set_type (fun t => mret t) (fun t => mret t) line_segments
    triangle second_line "curve"
  = Return
      ({| segment.alive := {[ 1%nat ]};
          segment.objects :=
            [ {| segment.x := 0; segment.y := 0; segment.type := "line" |};
              {| segment.x := 100; segment.y := 0; segment.type := "curve" |};
              {| segment.x := 100; segment.y := 100; segment.type := "line" |};
              {| segment.x := 100; segment.y := 0; segment.type := "offcurve" |};
              {| segment.x := 0; segment.y := 0; segment.type := "offcurve" |} ];
          segment.points := [0%nat; 4%nat; 3%nat; 1%nat; 2%nat] |},
       {| segment._contour := Some (weakref.Ref 1%nat);
          segment._points := [4%nat; 3%nat; 1%nat] |}).
Proof.
  assert (Hdiff : "line" <> "curve") by discriminate.
  assert (Hcontour : segment._get_contour (segment.alive triangle) second_line
                     <> None) by (vm_compute; discriminate).
  pose proof (set_type_spec (fun t => mret t) (fun t => mret t) line_segments
                triangle second_line [] 1%nat
                {| segment.x := 100; segment.y := 0; segment.type := "line" |}
                "line" "curve" eq_refl eq_refl eq_refl eq_refl) as Hspec.
  destruct Hspec as (_ & _ & Hwith).
  destruct (Hwith Hdiff Hcontour) as (_ & _ & Hcurve).
  assert (Hnew : "curve" ∈ ["curve"; "qcurve"])
    by (apply elem_of_cons; left; reflexivity).
  assert (Hold : "line" ∈ ["move"; "line"])
    by (apply elem_of_cons; right; apply elem_of_cons; left; reflexivity).
  apply (Hcurve Hnew Hold 1%nat 1%nat second_line
           {| segment._contour := Some (weakref.Ref 1%nat);
              segment._points := [0%nat] |}
           [] 0%nat
           {| segment.x := 0; segment.y := 0; segment.type := "line" |}
           eq_refl eq_refl
           ltac:(repeat constructor)
           eq_refl eq_refl eq_refl eq_refl
           ltac:(simpl; intros Hin; apply list_elem_of_singleton in Hin;
                 discriminate)).
Defined.

(** * More of the code *)

(** ** The other validators *)

(** X1.  [validateCoordinateTuple] returns exactly for a tuple or list of
    two values that are each an [int] or a [float], and then hands back
    the tuple of the two, whatever the container was; for every other
    value it raises [FontPartsError]; validating what it returned changes
    nothing. *)
Theorem validateCoordinateTuple_spec (value : pyval) :
  (forall r,
      validators.validateCoordinateTuple value = Return r <->
      exists x y,
        (value = PTuple [x; y] \/ value = PList [x; y]) /\
        is_int_or_float x = true /\ is_int_or_float y = true /\
        r = PTuple [x; y]) /\
  (returns (validators.validateCoordinateTuple value) \/
   raises_FontPartsError (validators.validateCoordinateTuple value)) /\
  (forall r,
      validators.validateCoordinateTuple value = Return r ->
      validators.validateCoordinateTuple r = Return r /\
      validators.validateTransformationOffset value = Return r).
Proof.
  assert (Hpair : forall x y (v : pyval),
    elements v = [x; y] -> is_tuple_or_list v = true ->
    (forall r,
        validators.validateCoordinateTuple v = Return r <->
        is_int_or_float x = true /\ is_int_or_float y = true /\
        r = PTuple [x; y]) /\
    (returns (validators.validateCoordinateTuple v) \/
     raises_FontPartsError (validators.validateCoordinateTuple v))).
  { intros x y v Hel Hseq. unfold validators.validateCoordinateTuple.
    rewrite Hseq, (len_elements _ Hseq), Hel. simpl.
    unfold validators.validateX, validators.validateY.
    destruct (is_int_or_float x); simpl.
    - destruct (is_int_or_float y); simpl.
      + split; [|left; eexists; reflexivity].
        intros r. split.
        * intros [= <-]. repeat split; reflexivity.
        * intros (_ & _ & ->). reflexivity.
      + split; [|right; eexists; reflexivity].
        intros r. split; [discriminate|]. intros (_ & Habs & _). discriminate.
    - split; [|right; eexists; reflexivity].
      intros r. split; [discriminate|]. intros (Habs & _). discriminate. }
  assert (Hother :
    (forall x y, value <> PTuple [x; y] /\ value <> PList [x; y]) ->
    raises_FontPartsError (validators.validateCoordinateTuple value)).
  { intros Hnot. unfold validators.validateCoordinateTuple.
    destruct value as [| | | | | | |l|l|]; try (eexists; reflexivity).
    - cbn [is_tuple_or_list negb].
      destruct (len (PTuple l) =? 2) eqn:Hlen; [|eexists; reflexivity].
      apply Z.eqb_eq in Hlen. unfold len in Hlen.
      destruct l as [|x [|y [|z l]]]; simpl in Hlen; try lia.
      destruct (Hnot x y) as [Habs _]. congruence.
    - cbn [is_tuple_or_list negb].
      destruct (len (PList l) =? 2) eqn:Hlen; [|eexists; reflexivity].
      apply Z.eqb_eq in Hlen. unfold len in Hlen.
      destruct l as [|x [|y [|z l]]]; simpl in Hlen; try lia.
      destruct (Hnot x y) as [_ Habs]. congruence. }
  assert (Hcases :
    (exists x y, (value = PTuple [x; y] \/ value = PList [x; y])) \/
    (forall x y, value <> PTuple [x; y] /\ value <> PList [x; y])).
  { destruct value as [| | | | | | |l|l|];
      try (right; intros x y; split; discriminate);
      destruct l as [|x [|y [|z l]]];
      try (right; intros x' y'; split; discriminate);
      left; exists x, y; [left|right]; reflexivity. }
  assert (Hiff : forall r,
      validators.validateCoordinateTuple value = Return r <->
      exists x y,
        (value = PTuple [x; y] \/ value = PList [x; y]) /\
        is_int_or_float x = true /\ is_int_or_float y = true /\
        r = PTuple [x; y]).
  { intros r. destruct Hcases as [(x & y & Hv)|Hnot].
    - assert (Hel : elements value = [x; y] /\ is_tuple_or_list value = true)
        by (destruct Hv as [-> | ->]; split; reflexivity).
      destruct Hel as [Hel Hseq].
      rewrite (proj1 (Hpair x y value Hel Hseq) r). split.
      + intros (Hx & Hy & ->). exists x, y. repeat split; assumption.
      + intros (x' & y' & Hv' & Hx & Hy & ->).
        assert (x' = x /\ y' = y) as [-> ->].
        { destruct Hv as [-> | ->], Hv' as [Hv'|Hv'];
            try discriminate; injection Hv' as -> ->; split; reflexivity. }
        repeat split; assumption.
    - split.
      + intros Hr. destruct (Hother Hnot) as [msg Hmsg]. congruence.
      + intros (x & y & [Hv|Hv] & _); destruct (Hnot x y); contradiction. }
  split; [exact Hiff|]. split.
  - destruct Hcases as [(x & y & Hv)|Hnot]; [|right; apply Hother, Hnot].
    apply (Hpair x y value); destruct Hv as [-> | ->]; reflexivity.
  - intros r Hr. split; [|exact Hr].
    apply Hiff in Hr as (x & y & _ & Hx & Hy & ->).
    apply (proj1 (Hpair x y (PTuple [x; y]) eq_refl eq_refl)).
    repeat split; assumption.
Qed.

Lemma validateCoordinateTuple_witness :
  validators.validateCoordinateTuple (PList [PInt 3; PFloat 0.5%float])
  = Return (PTuple [PInt 3; PFloat 0.5%float]).
Proof.
  apply (proj1 (validateCoordinateTuple_spec _)).
  exists (PInt 3), (PFloat 0.5%float).
  split; [right; reflexivity|]. repeat split; reflexivity.
Defined.

Lemma float_of_Z_0 : float_of_Z 0 = 0%float.
Proof. vm_compute. reflexivity. Qed.

Lemma float_of_Z_360 : float_of_Z 360 = 360%float.
Proof. vm_compute. reflexivity. Qed.

(** X2.  [validateTransformationAngle] takes integers from 0 to 360 and
    returns them as floats; it takes a float exactly when neither
    [f < 0] nor [f > 360] holds, which lets a NaN through unchanged; a
    value that is not a number, and a number outside the range, raise
    [FontPartsError]; whatever it returns is a float. *)
Theorem validateTransformationAngle_spec (str_float : float -> string) :
  (forall z,
      validators.validateTransformationAngle str_float (PInt z)
      = Return (PFloat (float_of_Z z)) <-> 0 <= z <= 360) /\
  (forall f,
      validators.validateTransformationAngle str_float (PFloat f)
      = Return (PFloat f) <->
      PrimFloat.ltb f 0%float = false /\ PrimFloat.ltb 360%float f = false) /\
  validators.validateTransformationAngle str_float (PFloat nan)
  = Return (PFloat nan) /\
  (forall value,
      (exists f, validators.validateTransformationAngle str_float value
                 = Return (PFloat f)) \/
      raises_FontPartsError
        (validators.validateTransformationAngle str_float value)) /\
  (forall value,
      is_int_or_float value = false ->
      raises_FontPartsError
        (validators.validateTransformationAngle str_float value)).
Proof.
  split; [|split; [|split; [|split]]].
  - intros z. unfold validators.validateTransformationAngle. simpl.
    destruct (z <? 0) eqn:Hlo; simpl.
    { apply Z.ltb_lt in Hlo. split; [discriminate|lia]. }
    destruct (360 <? z) eqn:Hhi; simpl.
    { apply Z.ltb_lt in Hhi. split; [discriminate|lia]. }
    apply Z.ltb_ge in Hlo, Hhi. split; [lia|reflexivity].
  - intros f. unfold validators.validateTransformationAngle.
    cbn [is_int_or_float negb validators.number_lt validators.number_gt].
    rewrite float_of_Z_0, float_of_Z_360.
    destruct (PrimFloat.ltb f 0) eqn:Hlo; simpl.
    { split; [discriminate|]. intros [Habs _]. discriminate. }
    destruct (PrimFloat.ltb 360 f) eqn:Hhi; simpl.
    { split; [discriminate|]. intros [_ Habs]. discriminate. }
    split; [split; reflexivity|reflexivity].
  - vm_compute. reflexivity.
  - intros value. unfold validators.validateTransformationAngle.
    destruct (is_int_or_float value) eqn:Hnum; simpl;
      [|right; eexists; reflexivity].
    destruct (validators.number_lt value 0 || validators.number_gt value 360);
      [right; eexists; reflexivity|].
    left. destruct (to_float_is_float value Hnum) as [f Hf].
    exists f. rewrite Hf. reflexivity.
  - intros value Hnum. unfold validators.validateTransformationAngle.
    rewrite Hnum. eexists. reflexivity.
Qed.

(** X3.  [validateLayerName] raises [FontPartsError] for a value that is
    not a string and for an empty string.  What it returns is a
    [unicode] string with the characters of the value, and it returns
    for every non-empty [unicode] and every non-empty ASCII [str]; a
    non-empty [str] with a byte from 128 up ends in Python's
    [UnicodeDecodeError] instead.  A name it returned validates to
    itself. *)
Theorem validateLayerName_spec (UnicodeDecodeError : exn) (value : pyval) :
  (is_basestring value = false ->
   raises_FontPartsError
     (validators.validateLayerName UnicodeDecodeError value)) /\
  (is_basestring value = true -> ords value = [] ->
   validators.validateLayerName UnicodeDecodeError value
   = Raise (FontPartsError "Layer names must be at least one character long.")) /\
  (forall cs, value = PUnicode cs -> cs <> [] ->
   validators.validateLayerName UnicodeDecodeError value = Return value) /\
  (forall s, value = PStr s -> ords value <> [] ->
   validators.validateLayerName UnicodeDecodeError value
   = if forallb (fun c => (c <? 128)%N) (ords value)
     then Return (PUnicode (ords value))
     else Raise UnicodeDecodeError) /\
  (forall r,
      validators.validateLayerName UnicodeDecodeError value = Return r ->
      r = PUnicode (ords value) /\ ords value <> [] /\
      validators.validateLayerName UnicodeDecodeError r = Return r).
Proof.
  assert (Hlen : forall v, is_basestring v = true ->
            (len v <? 1) = match ords v with [] => true | _ => false end).
  { intros v Hv. destruct v; try discriminate; unfold len;
      destruct (ords _); simpl; try reflexivity;
      apply Z.ltb_ge; lia. }
  assert (Hunicode : forall cs, cs <> [] ->
            validators.validateLayerName UnicodeDecodeError (PUnicode cs)
            = Return (PUnicode cs)).
  { intros cs Hcs. unfold validators.validateLayerName.
    rewrite (Hlen (PUnicode cs) eq_refl). simpl.
    destruct cs; [contradiction|reflexivity]. }
  assert (Hstr : forall s, ords (PStr s) <> [] ->
            validators.validateLayerName UnicodeDecodeError (PStr s)
            = if forallb (fun c => (c <? 128)%N) (ords (PStr s))
              then Return (PUnicode (ords (PStr s)))
              else Raise UnicodeDecodeError).
  { intros s Hs.
    unfold validators.validateLayerName, validators.unicode_.
    rewrite (Hlen (PStr s) eq_refl).
    cbn [is_basestring negb].
    destruct (ords (PStr s)) eqn:Hords; [contradiction|reflexivity]. }
  split; [|split; [|split; [|split]]].
  - intros Hnot. unfold validators.validateLayerName. rewrite Hnot.
    eexists. reflexivity.
  - intros Hstring Hempty. unfold validators.validateLayerName.
    rewrite Hstring, (Hlen _ Hstring), Hempty. reflexivity.
  - intros cs -> Hcs. apply Hunicode, Hcs.
  - intros s -> Hs. apply Hstr, Hs.
  - intros r Hr.
    destruct (is_basestring value) eqn:Hstring.
    2:{ unfold validators.validateLayerName in Hr. rewrite Hstring in Hr.
        discriminate. }
    destruct (ords value) as [|c cs] eqn:Hords.
    { unfold validators.validateLayerName in Hr.
      rewrite Hstring, (Hlen _ Hstring), Hords in Hr. discriminate. }
    destruct value as [| | | | |s|cs'| | |]; try discriminate.
    + rewrite Hstr in Hr by (rewrite Hords; discriminate).
      destruct (forallb _ _); [|discriminate]. injection Hr as <-.
      change (map N_of_ascii (list_ascii_of_string s)) with (ords (PStr s)).
      rewrite Hords. split; [reflexivity|]. split; [discriminate|].
      apply Hunicode. discriminate.
    + simpl in Hords. subst cs'.
      rewrite Hunicode in Hr by discriminate. injection Hr as <-.
      split; [reflexivity|]. split; [discriminate|].
      apply Hunicode. discriminate.
Qed.

Lemma validateLayerName_witness :
  validators.validateLayerName
    (ValueError "'ascii' codec can't decode byte") (PStr "foreground")
  = Return (PUnicode (ords (PStr "foreground"))).
Proof.
  rewrite (proj1 (proj2 (proj2 (proj2
             (validateLayerName_spec
                (ValueError "'ascii' codec can't decode byte")
                (PStr "foreground")))))
             "foreground" eq_refl ltac:(discriminate)).
  reflexivity.
Defined.

(** X4.  What [validateTransformationMatrix] returns is in canonical
    form: validating it again returns it unchanged. *)
Theorem validateTransformationMatrix_idempotent (value r : pyval) :
  validators.validateTransformationMatrix value = Return r ->
  validators.validateTransformationMatrix r = Return r.
Proof.
  unfold validators.validateTransformationMatrix at 1.
  destruct (is_tuple_or_list value) eqn:Hseq; simpl; [|discriminate].
  rewrite (len_elements _ Hseq).
  destruct (Z.of_nat (length (elements value)) =? 6) eqn:Hlen; simpl;
    [|discriminate].
  apply Z.eqb_eq in Hlen.
  destruct (validateTransformationMatrix_values_spec value (elements value))
    as [[Hall Hret]|[_ [msg Hmsg]]]; [|rewrite Hmsg; discriminate].
  rewrite Hret. simpl. intros [= <-].
  set (fs := map to_float (elements value)).
  assert (Hfloats : Forall (fun v => is_float v = true) fs).
  { unfold fs. clear Hret Hlen. induction Hall as [|v vs Hv _ IH];
      simpl; constructor; [|exact IH].
    destruct (to_float_is_float v Hv) as [f ->]. reflexivity. }
  assert (Hfixed : map to_float fs = fs).
  { clear -Hfloats. induction Hfloats as [|v vs Hv _ IH]; simpl; [reflexivity|].
    rewrite IH. destruct v; try discriminate. reflexivity. }
  unfold validators.validateTransformationMatrix. simpl.
  assert (Hsix : (Z.of_nat (length fs) =? 6) = true).
  { apply Z.eqb_eq. unfold fs. rewrite length_map. exact Hlen. }
  rewrite Hsix. simpl.
  destruct (validateTransformationMatrix_values_spec (PTuple fs) fs)
    as [[_ Hret']|[Hnot _]].
  - rewrite Hret'. simpl. rewrite Hfixed. reflexivity.
  - exfalso. apply Hnot. eapply Forall_impl; [exact Hfloats|].
    intros v Hv. destruct v; try discriminate. reflexivity.
Qed.

Lemma validateTransformationMatrix_idempotent_witness :
  validators.validateTransformationMatrix
    (PTuple [PFloat 1%float; PFloat 0%float; PFloat 0%float;
             PFloat 1%float; PFloat 1%float; PFloat 0%float])
  = Return (PTuple [PFloat 1%float; PFloat 0%float; PFloat 0%float;
                    PFloat 1%float; PFloat 1%float; PFloat 0%float]).
Proof.
  apply (validateTransformationMatrix_idempotent
           (PList [PInt 1; PInt 0; PInt 0; PInt 1; PBool true; PInt 0])).
  vm_compute. reflexivity.
Defined.

(** ** Moving, scaling and composing transformations of a point *)

(** The point [p] with its coordinates replaced. *)
Definition at_ (p : point.BasePoint Z) (x y : Z) : point.BasePoint Z :=
  {| point._contour := point._contour p; point.x := x; point.y := y |}.

Lemma at_same (p : point.BasePoint Z) : at_ p (point.x p) (point.y p) = p.
Proof. destruct p; reflexivity. Qed.







(** ** The layers of a font and their back-references *)

Section FontLayersMore.
Context {Color : Type}.
Variable normalizeLayerName : string -> result string.

Local Abbreviation Font := (font.BaseFont Color).

(** What reading the layers does to the layer [j]: a listed layer with
    no font gets this font, every other layer is left as it is. *)
Definition adopt (f : Font) (ls : list nat) (j : nat)
    (l : font.Layer Color) : font.Layer Color :=
  if bool_decide (j ∈ ls) then
    match font.font l with
    | None => {| font.name := font.name l; font.color := font.color l;
                 font.font := Some (font.self_ f) |}
    | Some _ => l
    end
  else l.

Lemma adopt_nil (f : Font) (j : nat) (l : font.Layer Color) :
  adopt f [] j l = l.
Proof.
  unfold adopt. rewrite bool_decide_eq_false_2; [reflexivity|].
  apply not_elem_of_nil.
Qed.

Lemma adopt_cons (f : Font) (k : nat) (ls : list nat) (j : nat)
    (l : font.Layer Color) :
  adopt f ls j (adopt f [k] j l) = adopt f (k :: ls) j l.
Proof.
  unfold adopt.
  destruct (decide (j = k)) as [->|Hne].
  - rewrite (bool_decide_eq_true_2 (k ∈ [k])) by (left).
    rewrite (bool_decide_eq_true_2 (k ∈ k :: ls)) by (left).
    destruct (font.font l) eqn:Hfont.
    + rewrite Hfont. destruct (bool_decide (k ∈ ls)); reflexivity.
    + simpl. destruct (bool_decide (k ∈ ls)); reflexivity.
  - rewrite (bool_decide_eq_false_2 (j ∈ [k])).
    2:{ intros Hin. apply list_elem_of_singleton in Hin. contradiction. }
    destruct (decide (j ∈ ls)) as [Hin|Hout].
    + rewrite !bool_decide_eq_true_2; [reflexivity|right; exact Hin|exact Hin].
    + rewrite !bool_decide_eq_false_2; [reflexivity| |exact Hout].
      intros Hin. apply elem_of_cons in Hin as [?|?]; contradiction.
Qed.

Lemma adopt_twice (f : Font) (ls : list nat) (j : nat) (l : font.Layer Color) :
  adopt f ls j (adopt f ls j l) = adopt f ls j l.
Proof.
  unfold adopt. destruct (bool_decide (j ∈ ls)); [|reflexivity].
  destruct (font.font l) eqn:Hfont; [rewrite Hfont|]; reflexivity.
Qed.

Lemma adopt_self (f g : Font) (ls : list nat) (j : nat)
    (l : font.Layer Color) :
  font.self_ g = font.self_ f -> adopt g ls j l = adopt f ls j l.
Proof. intros Hself. unfold adopt. rewrite Hself. reflexivity. Qed.

Lemma font_ext (g h : Font) :
  font.self_ h = font.self_ g -> font.layers h = font.layers g ->
  font.layerOrder h = font.layerOrder g ->
  font.objects h = font.objects g -> h = g.
Proof. destruct g, h. simpl. intros -> -> -> ->. reflexivity. Qed.

Lemma setFontInLayer_adopt (f : Font) (k : nat) :
  is_Some (font.objects f !! k) ->
  exists g,
    font._setFontInLayer f k = Return g /\
    font.self_ g = font.self_ f /\ font.layers g = font.layers f /\
    font.layerOrder g = font.layerOrder f /\
    forall j, font.objects g !! j = adopt f [k] j <$> font.objects f !! j.
Proof.
  intros [l Hk]. unfold font._setFontInLayer, font.the_layer. rewrite Hk. simpl.
  destruct (font.font l) eqn:Hfont.
  - exists f. repeat split; try reflexivity. intros j.
    destruct (font.objects f !! j) as [lj|] eqn:Hj; [|reflexivity]. simpl.
    unfold adopt. destruct (bool_decide (j ∈ [k])) eqn:Hin; [|reflexivity].
    apply bool_decide_eq_true_1, list_elem_of_singleton in Hin. subst j.
    rewrite Hk in Hj. injection Hj as <-. rewrite Hfont. reflexivity.
  - eexists. split; [reflexivity|]. repeat split; try reflexivity.
    intros j. simpl. destruct (decide (k = j)) as [<-|Hne].
    + rewrite lookup_insert_eq, Hk. simpl. unfold adopt.
      rewrite bool_decide_eq_true_2 by (left). rewrite Hfont. reflexivity.
    + rewrite lookup_insert_ne by exact Hne.
      destruct (font.objects f !! j) as [lj|]; [|reflexivity]. simpl.
      unfold adopt. rewrite bool_decide_eq_false_2; [reflexivity|].
      intros Hin. apply list_elem_of_singleton in Hin. congruence.
Qed.

Lemma setFontInLayers_adopt (ls : list nat) (f : Font) :
  (forall k, k ∈ ls -> is_Some (font.objects f !! k)) ->
  exists g,
    font._setFontInLayers f ls = Return g /\
    font.self_ g = font.self_ f /\ font.layers g = font.layers f /\
    font.layerOrder g = font.layerOrder f /\
    forall j, font.objects g !! j = adopt f ls j <$> font.objects f !! j.
Proof.
  revert f. induction ls as [|k ls IH]; intros f Hall; simpl.
  - exists f. repeat split; try reflexivity. intros j.
    destruct (font.objects f !! j); [|reflexivity]. simpl.
    rewrite adopt_nil. reflexivity.
  - destruct (setFontInLayer_adopt f k) as (f1 & Hf1 & Hs1 & Hl1 & Ho1 & Hobj1).
    { apply Hall. left. }
    rewrite Hf1. simpl.
    destruct (IH f1) as (g & Hg & Hs & Hl & Ho & Hobj).
    { intros j Hj. rewrite Hobj1.
      destruct (Hall j) as [lj Hlj]; [right; exact Hj|].
      rewrite Hlj. eexists. reflexivity. }
    exists g. split; [exact Hg|]. repeat split; try congruence.
    intros j. rewrite Hobj, Hobj1.
    destruct (font.objects f !! j) as [lj|]; [|reflexivity]. simpl.
    f_equal. rewrite (adopt_self f f1) by exact Hs1.
    apply adopt_cons.
Qed.

Lemma get_base_layers_adopt (f : Font) :
  (forall k, k ∈ font.layers f -> is_Some (font.objects f !! k)) ->
  exists g,
    font._get_base_layers f = Return (g, font.layers f) /\
    font.self_ g = font.self_ f /\ font.layers g = font.layers f /\
    font.layerOrder g = font.layerOrder f /\
    (forall j,
        font.objects g !! j
        = adopt f (font.layers f) j <$> font.objects f !! j).
Proof.
  intros Hall.
  destruct (setFontInLayers_adopt (font.layers f) f Hall)
    as (g & Hg & Hs & Hl & Ho & Hobj).
  exists g. unfold font._get_base_layers. rewrite Hg. simpl.
  split; [reflexivity|]. repeat split; assumption.
Qed.

(** X9.  Reading [font.layers] in a font whose listed layers all exist
    returns the layers in order and gives this font to every listed layer
    that had none; a layer that already has a font, this one or another,
    keeps it, and names, colors and the order are untouched.  Reading
    again changes nothing. *)
Theorem layers_spec (f : Font) :
  (forall k, k ∈ font.layers f -> is_Some (font.objects f !! k)) ->
  exists g,
    font._get_base_layers f = Return (g, font.layers f) /\
    font.self_ g = font.self_ f /\ font.layers g = font.layers f /\
    font.layerOrder g = font.layerOrder f /\
    (forall j,
        font.objects g !! j
        = adopt f (font.layers f) j <$> font.objects f !! j) /\
    font._get_base_layers g = Return (g, font.layers f).
Proof.
  intros Hall.
  destruct (setFontInLayers_adopt (font.layers f) f Hall)
    as (g & Hg & Hs & Hl & Ho & Hobj).
  exists g. unfold font._get_base_layers. rewrite Hg. simpl.
  split; [reflexivity|]. repeat split; try assumption.
  rewrite Hl.
  destruct (setFontInLayers_adopt (font.layers f) g) as (h & Hh & Hs' & Hl' & Ho' & Hobj').
  { intros j Hj. rewrite Hobj. destruct (Hall j Hj) as [lj Hlj].
    rewrite Hlj. eexists. reflexivity. }
  rewrite Hh. simpl. do 2 f_equal.
  apply font_ext; try assumption.
  apply map_eq. intros j. rewrite Hobj', Hobj.
  destruct (font.objects f !! j) as [lj|]; [|reflexivity]. simpl.
  f_equal. rewrite (adopt_self f g) by exact Hs.
  apply adopt_twice.
Qed.

(** The layer [k] exists and has the name [n]. *)
Definition named (f : Font) (n : string) (k : nat) : Prop :=
  exists l, font.objects f !! k = Some l /\ font.name l = n.

Lemma adopt_name (f : Font) (ls : list nat) (j : nat) (l : font.Layer Color) :
  font.name (adopt f ls j l) = font.name l.
Proof.
  unfold adopt. destruct (bool_decide (j ∈ ls)); [|reflexivity].
  destruct (font.font l); reflexivity.
Qed.

Lemma getLayer_loop_first (g : Font) (ls : list nat) (n : string)
    (i k : nat) :
  (forall j, j ∈ ls -> is_Some (font.objects g !! j)) ->
  ls !! i = Some k -> named g n k ->
  (forall j k', (j < i)%nat -> ls !! j = Some k' -> ~ named g n k') ->
  font._getLayer_loop g ls n = Return k.
Proof.
  revert i. induction ls as [|k0 ls IH]; intros i Hall Hi Hk Hfirst;
    [discriminate|].
  simpl. unfold font.the_layer.
  destruct (Hall k0) as [l0 Hl0]; [left|]. rewrite Hl0. simpl.
  destruct i as [|i]; simpl in Hi.
  - injection Hi as ->. destruct Hk as (l & Hl & Hn).
    rewrite Hl0 in Hl. injection Hl as ->.
    rewrite decide_True by exact Hn. reflexivity.
  - destruct (decide (font.name l0 = n)) as [Hn|Hn].
    + exfalso. apply (Hfirst O k0); [lia|reflexivity|].
      exists l0. split; assumption.
    + apply (IH i); [|exact Hi|exact Hk|].
      * intros j Hj. apply Hall. right. exact Hj.
      * intros j k' Hj Hk'. apply (Hfirst (S j) k'); [lia|exact Hk'].
Qed.

Lemma getLayer_loop_none (g : Font) (ls : list nat) (n : string) :
  (forall j, j ∈ ls -> is_Some (font.objects g !! j)) ->
  (forall j, j ∈ ls -> ~ named g n j) ->
  font._getLayer_loop g ls n
  = Raise (FontPartsError ("No layer with the name '" +:+ n +:+ "' exists.")).
Proof.
  induction ls as [|k0 ls IH]; intros Hall Hnone; [reflexivity|].
  simpl. unfold font.the_layer.
  destruct (Hall k0) as [l0 Hl0]; [left|]. rewrite Hl0. simpl.
  destruct (decide (font.name l0 = n)) as [Hn|Hn].
  - exfalso. apply (Hnone k0); [left|]. exists l0. split; assumption.
  - apply IH.
    + intros j Hj. apply Hall. right. exact Hj.
    + intros j Hj. apply Hnone. right. exact Hj.
Qed.

(** X10.  In a font whose listed layers all exist, [getLayer(name)]
    returns the first layer in order that has the normalized name and
    leaves the font as reading [font.layers] leaves it; when no listed
    layer has that name it raises [FontPartsError]. *)
Theorem getLayer_first (f g : Font) (n n' : string) :
  normalizeLayerName n = Return n' ->
  (forall k, k ∈ font.layers f -> is_Some (font.objects f !! k)) ->
  font._get_base_layers f = Return (g, font.layers f) ->
  (forall i k,
      font.layers f !! i = Some k -> named f n' k ->
      (forall j k', (j < i)%nat -> font.layers f !! j = Some k' ->
                    ~ named f n' k') ->
      font.getLayer normalizeLayerName f n = Return (g, k)) /\
  ((forall k, k ∈ font.layers f -> ~ named f n' k) ->
   font.getLayer normalizeLayerName f n
   = Raise (FontPartsError
              ("No layer with the name '" +:+ n' +:+ "' exists."))).
Proof.
  intros Hn Hall Hread.
  destruct (get_base_layers_adopt f Hall) as (g' & Hread' & Hs & Hl & Ho & Hobj).
  rewrite Hread in Hread'. injection Hread' as <-.
  assert (Hnamed : forall k, named g n' k <-> named f n' k).
  { intros k. unfold named. rewrite Hobj.
    destruct (font.objects f !! k) as [l|]; simpl.
    - split; intros (l' & [= <-] & Hname); eexists; (split; [reflexivity|]).
      + rewrite adopt_name in Hname. exact Hname.
      + rewrite adopt_name. exact Hname.
    - split; intros (l' & Habs & _); discriminate. }
  assert (Hall' : forall j, j ∈ font.layers f -> is_Some (font.objects g !! j)).
  { intros j Hj. rewrite Hobj. destruct (Hall j Hj) as [l ->].
    eexists. reflexivity. }
  split.
  - intros i k Hi Hk Hfirst.
    unfold font.getLayer, font._getLayer. rewrite Hn. simpl.
    rewrite Hread. simpl.
    rewrite (getLayer_loop_first g (font.layers f) n' i k Hall' Hi).
    + simpl. rewrite setFontInLayer_attached; [reflexivity|].
      unfold attached. rewrite Hobj.
      destruct (Hall k) as [l Hl']; [eapply list_elem_of_lookup_2, Hi|].
      rewrite Hl'. simpl. eexists. split; [reflexivity|].
      unfold adopt. rewrite bool_decide_eq_true_2
        by (eapply list_elem_of_lookup_2, Hi).
      destruct (font.font l) eqn:Hfont; [rewrite Hfont|]; discriminate.
    + apply Hnamed, Hk.
    + intros j k' Hj Hk' Habs. apply (Hfirst j k' Hj Hk'), Hnamed, Habs.
  - intros Hnone.
    unfold font.getLayer, font._getLayer. rewrite Hn. simpl.
    rewrite Hread. simpl.
    rewrite (getLayer_loop_none g (font.layers f) n' Hall'); [reflexivity|].
    intros j Hj Habs. apply (Hnone j Hj), Hnamed, Habs.
Qed.

End FontLayersMore.

(** A font with three layers: the first has no font yet, the second
    belongs to another font, the third repeats the second's name. *)
Definition three_layers : font.BaseFont (Z * Z * Z * Z) := {|
  font.self_ := 7%nat;
  font.objects :=
    {[ 0%nat := {| font.name := "foreground"; font.color := None;
                   font.font := None |};
       1%nat := {| font.name := "background"; font.color := None;
                   font.font := Some 9%nat |};
       2%nat := {| font.name := "background"; font.color := Some (1, 0, 0, 1);
                   font.font := None |} ]};
  font.layers := [0%nat; 1%nat; 2%nat];
  font.layerOrder := ["foreground"; "background"]
|}.

Definition three_layers_read : font.BaseFont (Z * Z * Z * Z) :=
  font.with_objects three_layers
    {[ 0%nat := {| font.name := "foreground"; font.color := None;
                   font.font := Some 7%nat |};
       1%nat := {| font.name := "background"; font.color := None;
                   font.font := Some 9%nat |};
       2%nat := {| font.name := "background"; font.color := Some (1, 0, 0, 1);
                   font.font := Some 7%nat |} ]}.

Lemma three_layers_exist (k : nat) :
  k ∈ font.layers three_layers -> is_Some (font.objects three_layers !! k).
Proof.
  intros Hk. simpl in Hk.
  repeat (apply elem_of_cons in Hk as [->|Hk]); try (eexists; reflexivity).
  apply elem_of_nil in Hk. contradiction.
Defined.

Lemma layers_witness :
  exists g,
    font._get_base_layers three_layers = Return (g, [0%nat; 1%nat; 2%nat]) /\
    font._get_base_layers g = Return (g, [0%nat; 1%nat; 2%nat]).
Proof.
  destruct (layers_spec three_layers three_layers_exist)
    as (g & Hread & _ & _ & _ & _ & Hagain).
  exists g. split; assumption.
Defined.

Lemma getLayer_first_witness :
  font.getLayer (fun n => mret n) three_layers "background"
  = Return (three_layers_read, 1%nat).
Proof.
  apply (proj1 (getLayer_first (fun n => mret n) three_layers three_layers_read
                  "background" "background" eq_refl three_layers_exist
                  ltac:(vm_compute; reflexivity)) 1%nat 1%nat eq_refl).
  - eexists. split; reflexivity.
  - intros j k' Hj Hk' (l & Hl & Hname).
    destruct j as [|j]; [|lia]. injection Hk' as <-.
    vm_compute in Hl. injection Hl as <-. discriminate.
Defined.

(** ** Base implementations that call the default layer's name *)

(** X11.  [BaseFont._autoUnicodes], [_getReverseComponentMapping] and
    [_getCharacterMapping] call [self.defaultLayer()], and the default
    layer is a name: once the name is read each of them raises
    [TypeError], and none of them ever returns, whatever the layers and
    the environment are.  [_keys], which reads [self.defaultLayer]
    without calling it, hands out the keys of that layer. *)
Theorem defaultLayer_called {Color : Type}
    (normalizeLayerName : string -> result string)
    (_get_defaultLayer : font.BaseFont Color -> result string)
    (normalizeDefaultLayer : string -> font.BaseFont Color -> result string)
    (layer_autoUnicodes : font.BaseFont Color -> nat -> result (font.BaseFont Color))
    (layer_mapping layer_keys : font.BaseFont Color -> nat -> result pyval)
    (f : font.BaseFont Color) :
  let not_callable {A : Type} (m : result A) :=
    (forall name_,
        font._get_base_defaultLayer _get_defaultLayer normalizeDefaultLayer f
        = Return name_ ->
        m = Raise (TypeError "'unicode' object is not callable")) /\
    ~ returns m in
  not_callable (font._autoUnicodes normalizeLayerName _get_defaultLayer
                  normalizeDefaultLayer layer_autoUnicodes f) /\
  not_callable (font._getReverseComponentMapping normalizeLayerName
                  _get_defaultLayer normalizeDefaultLayer layer_mapping f) /\
  not_callable (font._getCharacterMapping normalizeLayerName
                  _get_defaultLayer normalizeDefaultLayer layer_mapping f) /\
  (forall name_ g k keys,
      font._get_base_defaultLayer _get_defaultLayer normalizeDefaultLayer f
      = Return name_ ->
      font.getLayer normalizeLayerName f name_ = Return (g, k) ->
      layer_keys g k = Return keys ->
      font._keys normalizeLayerName _get_defaultLayer normalizeDefaultLayer
        layer_keys f
      = Return (g, keys)).
Proof.
  intros not_callable.
  assert (Hcall : forall (A : Type) (k : string -> result A),
    not_callable A
      (defaultLayer ← font._get_base_defaultLayer _get_defaultLayer
                        normalizeDefaultLayer f;
       name_ ← font.call_name defaultLayer; k name_)).
  { intros A k. split.
    - intros name_ ->. reflexivity.
    - intros [a Ha].
      destruct (font._get_base_defaultLayer _ _ f); discriminate. }
  split; [apply Hcall|]. split; [apply Hcall|]. split; [apply Hcall|].
  intros name_ g k keys Hname Hget Hkeys. unfold font._keys.
  rewrite Hname. simpl. rewrite Hget. simpl. rewrite Hkeys. reflexivity.
Qed.

(** ** A dictionary kept in a wrapped [dict]: [RKerning] *)

Lemma mapM_id {A : Type} (f : A -> result A) (l : list A) :
  (forall a, a ∈ l -> f a = Return a) -> mapM f l = Return l.
Proof.
  intros Hall. apply mapM_Return.
  induction l as [|a l IH]; constructor.
  - apply Hall. left.
  - apply IH. intros b Hb. apply Hall. right. exact Hb.
Qed.

Lemma mapM_Raise_bind {A B C : Type} (f : A -> result B) (l : list A)
    (e : exn) (k : list B -> result C) :
  mapM f l = Raise e -> (mapM f l ≫= k) = Raise e.
Proof. intros ->. reflexivity. Qed.

Section Kerning.
Context {K : Type} `{Countable K} {V : Type}.
Variable KeyError : K -> exn.
Variable keyNormalizer : option (K -> result K).
Variable valueNormalizer : option (V -> result V).

Local Abbreviation nk := (mapping.normalized_key keyNormalizer).
Local Abbreviation nv := (mapping.normalized_value valueNormalizer).
Local Abbreviation nd := (mapping.normalized_default valueNormalizer).
Local Abbreviation getitem := (kerning.__getitem__ KeyError keyNormalizer).
Local Abbreviation contains := (kerning.__contains__ (V:=V) keyNormalizer).
Local Abbreviation setitem :=
  (kerning.__setitem__ keyNormalizer valueNormalizer).
Local Abbreviation delitem := (kerning.__delitem__ (V:=V) KeyError keyNormalizer).

Lemma getitem_lookup (d : gmap K V) (k k' : K) :
  nk k = Return k' ->
  getitem d k = match d !! k' with
                | Some v => Return v
                | None => Raise (KeyError k')
                end.
Proof.
  intros Hk. unfold kerning.__getitem__, mapping.__getitem__.
  rewrite Hk. reflexivity.
Qed.

Lemma contains_lookup (d : gmap K V) (k k' : K) :
  nk k = Return k' ->
  contains d k = Return (bool_decide (is_Some (d !! k'))).
Proof.
  intros Hk. unfold kerning.__contains__, mapping.__contains__.
  rewrite Hk. reflexivity.
Qed.

Lemma delitem_lookup (d : gmap K V) (k k' : K) :
  nk k = Return k' ->
  delitem d k = match d !! k' with
                | Some _ => Return (delete k' d)
                | None => Raise (KeyError k')
                end.
Proof.
  intros Hk. unfold kerning.__delitem__, mapping.__delitem__.
  rewrite Hk. reflexivity.
Qed.

Lemma setitem_insert (d : gmap K V) (k k' : K) (v v' : V) :
  nk k = Return k' -> nv v = Return v' ->
  setitem d k v = Return (<[k' := v']> d).
Proof.
  intros Hk Hv. unfold kerning.__setitem__, mapping.__setitem__.
  rewrite Hk. simpl. rewrite Hv. reflexivity.
Qed.

(** X12.  Storing a pair stores the normalized value under the
    normalized key: reading the same key back returns that value, the
    key is then contained, and reading any key that normalizes to another
    one is not affected. *)
Theorem setitem_getitem (d d' : gmap K V) (k : K) (v : V) :
  setitem d k v = Return d' ->
  exists k' v',
    nk k = Return k' /\ nv v = Return v' /\
    d' = <[k' := v']> d /\
    getitem d' k = Return v' /\
    contains d' k = Return true /\
    (forall j j', nk j = Return j' -> j' <> k' ->
                  getitem d' j = getitem d j /\ contains d' j = contains d j).
Proof.
  unfold kerning.__setitem__, mapping.__setitem__. intros Hset.
  apply bind_Return_inv in Hset as (k' & Hk & Hset).
  apply bind_Return_inv in Hset as (v' & Hv & Hset).
  injection Hset as <-.
  exists k', v'. split; [exact Hk|]. split; [exact Hv|].
  split; [reflexivity|]. split; [|split].
  - rewrite (getitem_lookup _ k k' Hk), lookup_insert_eq. reflexivity.
  - rewrite (contains_lookup _ k k' Hk), lookup_insert_eq.
    rewrite bool_decide_eq_true_2; [reflexivity|]. eexists. reflexivity.
  - intros j j' Hj Hne.
    rewrite !(getitem_lookup _ j j' Hj), !(contains_lookup _ j j' Hj).
    rewrite lookup_insert_ne by congruence. split; reflexivity.
Qed.

(** X13.  [get(key, default)] never ends in [KeyError]: it looks the key
    up under the key normalizer applied twice and hands back the stored
    value, or else the default, normalized unless it is [None].  With a
    key normalizer that leaves its own results alone this is the lookup
    of [d[key]]. *)
Theorem get_spec (d : gmap K V) (k : K) (default : option V) :
  kerning.get KeyError keyNormalizer valueNormalizer d k default
  = (k1 ← nk k;
     default' ← nd default;
     k2 ← nk k1;
     mret (match d !! k2 with Some v => Some v | None => default' end)) /\
  (forall k' default',
      nk k = Return k' -> nk k' = Return k' -> nd default = Return default' ->
      kerning.get KeyError keyNormalizer valueNormalizer d k default
      = Return (match d !! k' with Some v => Some v | None => default' end) /\
      (forall v, d !! k' = Some v ->
                 kerning.get KeyError keyNormalizer valueNormalizer d k default
                 = (v0 ← getitem d k; mret (Some v0)))).
Proof.
  assert (Hget : kerning.get KeyError keyNormalizer valueNormalizer d k default
    = (k1 ← nk k;
       default' ← nd default;
       k2 ← nk k1;
       mret (match d !! k2 with Some v => Some v | None => default' end))).
  { unfold kerning.get, mapping.get, mapping._get.
    destruct (nk k) as [k1|e] eqn:Hk1; [|reflexivity]. simpl.
    destruct (nd default) as [default'|e]; [|reflexivity]. simpl.
    unfold mapping.__contains__, mapping.__getitem__.
    destruct (nk k1) as [k2|e] eqn:Hk2; [|reflexivity]. simpl.
    unfold kerning._getItem.
    destruct (d !! k2) as [v|] eqn:Hv.
    - rewrite bool_decide_eq_true_2 by (eexists; reflexivity). reflexivity.
    - rewrite bool_decide_eq_false_2; [reflexivity|].
      intros [v Habs]. discriminate. }
  split; [exact Hget|].
  intros k' default' Hk Hk' Hdefault.
  assert (Hvalue : kerning.get KeyError keyNormalizer valueNormalizer d k default
            = Return (match d !! k' with Some v => Some v | None => default' end)).
  { rewrite Hget, Hk. simpl. rewrite Hdefault. simpl. rewrite Hk'. reflexivity. }
  split; [exact Hvalue|].
  intros v Hv. rewrite Hvalue, (getitem_lookup _ k k' Hk), Hv. reflexivity.
Qed.

Lemma delete_absent (d : gmap K V) (k : K) :
  bool_decide (is_Some (delete k d !! k)) = false.
Proof.
  apply bool_decide_eq_false_2. rewrite lookup_delete_eq.
  intros [v Habs]. discriminate.
Qed.

(** X14.  Deleting a key removes the pair stored under the normalized
    key and nothing else, and the key is no longer contained; deleting a
    key that is not there ends in [KeyError]. *)
Theorem delitem_spec (d : gmap K V) (k k' : K) :
  nk k = Return k' ->
  (is_Some (d !! k') ->
   delitem d k = Return (delete k' d) /\
   contains (delete k' d) k = Return false /\
   (forall j, j <> k' -> delete k' d !! j = d !! j)) /\
  (d !! k' = None -> delitem d k = Raise (KeyError k')).
Proof.
  intros Hk. rewrite (delitem_lookup d k k' Hk). split.
  - intros [v Hv]. rewrite Hv. split; [reflexivity|]. split.
    + rewrite (contains_lookup _ k k' Hk), delete_absent. reflexivity.
    + intros j Hj. apply lookup_delete_ne. congruence.
  - intros ->. reflexivity.
Qed.

(** X15.  [pop(key, default)] never ends in [KeyError]: under the key
    normalizer applied twice it takes the stored pair out and returns its
    value, or leaves the dictionary alone and returns the default,
    normalized unless it is [None]; afterwards that key is not stored. *)
Theorem pop_spec (d : gmap K V) (k : K) (default : option V) :
  kerning.pop KeyError keyNormalizer valueNormalizer d k default
  = (k1 ← nk k;
     default' ← nd default;
     k2 ← nk k1;
     mret (match d !! k2 with
           | Some v => (delete k2 d, Some v)
           | None => (d, default')
           end)) /\
  (forall d' r,
      kerning.pop KeyError keyNormalizer valueNormalizer d k default
      = Return (d', r) ->
      exists k1 k2, nk k = Return k1 /\ nk k1 = Return k2 /\ d' !! k2 = None /\
                    forall j, j <> k2 -> d' !! j = d !! j).
Proof.
  assert (Hpop : kerning.pop KeyError keyNormalizer valueNormalizer d k default
    = (k1 ← nk k;
       default' ← nd default;
       k2 ← nk k1;
       mret (match d !! k2 with
             | Some v => (delete k2 d, Some v)
             | None => (d, default')
             end))).
  { unfold kerning.pop, mapping.pop, mapping._pop.
    destruct (nk k) as [k1|e] eqn:Hk1; [|reflexivity]. simpl.
    destruct (nd default) as [default'|e]; [|reflexivity]. simpl.
    unfold mapping.__contains__, mapping.__getitem__, mapping.__delitem__.
    destruct (nk k1) as [k2|e] eqn:Hk2; [|reflexivity]. simpl.
    unfold kerning._getItem, kerning._delItem.
    destruct (d !! k2) as [v|] eqn:Hv.
    - rewrite bool_decide_eq_true_2 by (eexists; reflexivity). reflexivity.
    - rewrite bool_decide_eq_false_2; [reflexivity|].
      intros [v Habs]. discriminate. }
  split; [exact Hpop|].
  intros d' r. rewrite Hpop. intros Hr.
  apply bind_Return_inv in Hr as (k1 & Hk1 & Hr).
  apply bind_Return_inv in Hr as (default' & _ & Hr).
  apply bind_Return_inv in Hr as (k2 & Hk2 & Hr).
  exists k1, k2. split; [exact Hk1|]. split; [exact Hk2|].
  destruct (d !! k2) as [v|] eqn:Hv; injection Hr as <- <-.
  - split; [apply lookup_delete_eq|].
    intros j Hj. apply lookup_delete_ne. congruence.
  - split; [exact Hv|]. intros j _. reflexivity.
Qed.

End Kerning.

Section KerningWhole.
Context {K : Type} `{Countable K} {V : Type}.
Variable KeyError : K -> exn.

(** A pair of the comprehension that [update] and [items] run. *)
Definition normalize_pair (kn : K -> result K) (vn : V -> result V)
    (kv : K * V) : result (K * V) :=
  key ← kn kv.1;
  value ← vn kv.2;
  mret (key, value).

Lemma update_inserts (kn : K -> result K) (vn : V -> result V)
    (other pairs : list (K * V)) (d : gmap K V) :
  Forall2 (fun kv kv' => normalize_pair kn vn kv = Return kv') other pairs ->
  mapping._update (Some kn) (Some vn) kerning._setItem d other
  = Return (foldl (fun m kv => <[kv.1 := kv.2]> m) d pairs).
Proof.
  intros Hall. revert d.
  induction Hall as [|[k v] [k' v'] other pairs Hkv _ IH]; intros d;
    [reflexivity|].
  simpl. unfold normalize_pair in Hkv. simpl in Hkv.
  apply bind_Return_inv in Hkv as (k0 & Hk & Hkv).
  apply bind_Return_inv in Hkv as (v0 & Hv & Hkv).
  injection Hkv as -> ->.
  unfold mapping.__setitem__. simpl. rewrite Hk. simpl. rewrite Hv. simpl.
  apply IH.
Qed.

(** X16.  With both normalizers set, [update(other)] checks every pair
    of [other] before it stores any: if one does not normalize, the call
    ends in that error and [_setItem] is never reached, whatever the
    subclass does there.  If all of them normalize, the wrapped
    dictionary ends up with each normalized pair stored, in order, later
    pairs over earlier ones. *)
Theorem update_spec (kn : K -> result K) (vn : V -> result V)
    (other : list (K * V)) :
  (forall (St : Type) (_setItem : St -> K -> V -> result St) (st : St) e,
      mapM (normalize_pair kn vn) other = Raise e ->
      mapping.update (Some kn) (Some vn) _setItem st other = Raise e) /\
  (forall pairs (d : gmap K V),
      mapM (normalize_pair kn vn) other = Return pairs ->
      kerning.update (Some kn) (Some vn) d other
      = Return (foldl (fun m kv => <[kv.1 := kv.2]> m) d pairs)).
Proof.
  split.
  - intros St _setItem st e Hfail. unfold mapping.update.
    apply mapM_Raise_bind. exact Hfail.
  - intros pairs d Hok. unfold kerning.update, mapping.update.
    change ((mapM (normalize_pair kn vn) other ≫= fun _ =>
             mapping._update (Some kn) (Some vn) kerning._setItem d other)
            = Return (foldl (fun m kv => <[kv.1 := kv.2]> m) d pairs)).
    rewrite Hok. simpl. apply update_inserts, mapM_Return, Hok.
Qed.

Lemma clear_keys_deletes (kn : K -> result K) (ks : list K) (d : gmap K V) :
  NoDup ks ->
  (forall k, k ∈ ks -> kn k = Return k /\ is_Some (d !! k)) ->
  exists d',
    mapping._clear_keys (Some kn) (kerning._delItem KeyError) d ks = Return d' /\
    forall j, d' !! j = if decide (j ∈ ks) then None else d !! j.
Proof.
  intros Hnd. revert d. induction Hnd as [|k ks Hk Hnd IH]; intros d Hall.
  - exists d. split; [reflexivity|]. intros j.
    rewrite decide_False by apply not_elem_of_nil. reflexivity.
  - destruct (Hall k) as [Hkn [v Hv]]; [left|].
    assert (Hdel : mapping.__delitem__ (Some kn) (kerning._delItem KeyError) d k
                   = Return (delete k d)).
    { unfold mapping.__delitem__, mapping.normalized_key. rewrite Hkn.
      unfold kerning._delItem. simpl. rewrite Hv. reflexivity. }
    cbn [mapping._clear_keys]. rewrite Hdel. cbn [mbind result_bind].
    destruct (IH (delete k d)) as (d' & Hd' & Hlookup).
    { intros j Hj. destruct (Hall j) as [Hjn Hjs]; [right; exact Hj|].
      split; [exact Hjn|]. rewrite lookup_delete_ne; [exact Hjs|].
      intros ->. contradiction. }
    exists d'. split; [exact Hd'|]. intros j. rewrite Hlookup.
    destruct (decide (j ∈ ks)) as [Hin|Hout].
    + rewrite decide_True by (right; exact Hin). reflexivity.
    + destruct (decide (j = k)) as [->|Hne].
      * rewrite decide_True by (left). apply lookup_delete_eq.
      * rewrite decide_False.
        -- apply lookup_delete_ne. congruence.
        -- intros Hin. apply elem_of_cons in Hin as [?|?]; contradiction.
Qed.

(** X17.  For a wrapped dictionary whose keys and values are already in
    normal form, with both normalizers set: [items()] hands out its
    pairs, [keys()] and [values()] their two halves, [len()] their
    number, and [clear()] leaves it empty.  With either normalizer
    [None] none of [keys()], [values()], [len()] and [clear()] works:
    each ends in the unbound local of [items()]. *)
Theorem whole_dictionary (d : gmap K V) :
  (forall (kn : K -> result K) (vn : V -> result V),
      (forall k v, d !! k = Some v -> kn k = Return k /\ vn v = Return v) ->
      kerning.items (Some kn) (Some vn) d = Return (map_to_list d) /\
      kerning.keys (Some kn) (Some vn) d = Return (map_to_list d).*1 /\
      kerning.values (Some kn) (Some vn) d = Return (map_to_list d).*2 /\
      kerning.__len__ (Some kn) (Some vn) d = Return (size d) /\
      kerning.clear KeyError (Some kn) (Some vn) d = Return ∅) /\
  (forall (keyNormalizer : option (K -> result K))
          (valueNormalizer : option (V -> result V)),
      keyNormalizer = None \/ valueNormalizer = None ->
      let unbound {A : Type} (m : result A) :=
        m = Raise (UnboundLocalError "values") in
      unbound (kerning.items keyNormalizer valueNormalizer d) /\
      unbound (kerning.keys keyNormalizer valueNormalizer d) /\
      unbound (kerning.values keyNormalizer valueNormalizer d) /\
      unbound (kerning.__len__ keyNormalizer valueNormalizer d) /\
      unbound (kerning.clear KeyError keyNormalizer valueNormalizer d)).
Proof.
  split.
  - intros kn vn Hnormal.
    assert (Hitems : kerning.items (Some kn) (Some vn) d
                     = Return (map_to_list d)).
    { unfold kerning.items, mapping.items, kerning._items. simpl.
      apply mapM_id. intros [k v] Hkv.
      apply elem_of_map_to_list in Hkv.
      destruct (Hnormal k v Hkv) as [Hk Hv]. simpl.
      rewrite Hk. simpl. rewrite Hv. reflexivity. }
    assert (Hkeys : kerning.keys (Some kn) (Some vn) d
                    = Return (map_to_list d).*1).
    { unfold kerning.keys, mapping.keys, mapping._keys.
      fold (kerning.items (Some kn) (Some vn) d). rewrite Hitems. simpl.
      apply mapM_id. intros k Hk.
      apply list_elem_of_fmap in Hk as ([k' v] & -> & Hkv).
      apply elem_of_map_to_list in Hkv. apply (Hnormal k' v Hkv). }
    split; [exact Hitems|]. split; [exact Hkeys|]. split; [|split].
    + unfold kerning.values, mapping.values, mapping._values.
      fold (kerning.items (Some kn) (Some vn) d). rewrite Hitems. simpl.
      apply mapM_id. intros v Hv.
      apply list_elem_of_fmap in Hv as ([k v'] & -> & Hkv).
      apply elem_of_map_to_list in Hkv. apply (Hnormal k v' Hkv).
    + unfold kerning.__len__, mapping.__len__, mapping._len.
      fold (kerning.keys (Some kn) (Some vn) d). rewrite Hkeys. simpl.
      rewrite length_fmap, length_map_to_list. reflexivity.
    + unfold kerning.clear, mapping.clear, mapping._clear.
      fold (kerning.keys (Some kn) (Some vn) d). rewrite Hkeys. simpl.
      destruct (clear_keys_deletes kn (map_to_list d).*1 d) as (d' & Hd' & Hlookup).
      * apply NoDup_fst_map_to_list.
      * intros k Hk. apply list_elem_of_fmap in Hk as ([k' v] & -> & Hkv).
        apply elem_of_map_to_list in Hkv. simpl.
        split; [apply (Hnormal k' v Hkv)|]. eexists. exact Hkv.
      * rewrite Hd'. f_equal. apply map_eq. intros j.
        rewrite Hlookup, lookup_empty.
        destruct (decide (j ∈ (map_to_list d).*1)) as [Hin|Hout];
          [reflexivity|].
        destruct (d !! j) as [v|] eqn:Hj; [|reflexivity].
        exfalso. apply Hout. apply list_elem_of_fmap.
        exists (j, v). split; [reflexivity|].
        apply elem_of_map_to_list. exact Hj.
  - intros keyNormalizer valueNormalizer Hnone unbound.
    assert (Hitems : kerning.items keyNormalizer valueNormalizer d
                     = Raise (UnboundLocalError "values")).
    { unfold kerning.items, mapping.items, kerning._items. simpl.
      destruct Hnone as [-> | ->]; [reflexivity|].
      destruct keyNormalizer; reflexivity. }
    split; [exact Hitems|].
    assert (Hkeys : kerning.keys keyNormalizer valueNormalizer d
                    = Raise (UnboundLocalError "values")).
    { unfold kerning.keys, mapping.keys, mapping._keys.
      fold (kerning.items keyNormalizer valueNormalizer d).
      rewrite Hitems. reflexivity. }
    split; [exact Hkeys|]. split; [|split].
    + unfold unbound, kerning.values, mapping.values, mapping._values.
      fold (kerning.items keyNormalizer valueNormalizer d).
      rewrite Hitems. reflexivity.
    + unfold unbound, kerning.__len__, mapping.__len__, mapping._len.
      fold (kerning.keys keyNormalizer valueNormalizer d).
      rewrite Hkeys. reflexivity.
    + unfold unbound, kerning.clear, mapping.clear, mapping._clear.
      fold (kerning.keys keyNormalizer valueNormalizer d).
      rewrite Hkeys. reflexivity.
Qed.

End KerningWhole.

(** A kerning dictionary with one pair, and normalizers that accept
    every key and value as it is. *)
Definition one_pair : gmap (string * string) Z :=
  {[ ("A", "V") := (-40)%Z ]}.

Definition any_key (k : string * string) : result (string * string) :=
  Return k.

Definition any_value (v : Z) : result Z := Return v.

Definition missing (k : string * string) : exn :=
  IndexError (k.1 +:+ " " +:+ k.2).

Lemma setitem_getitem_witness :
  kerning.__getitem__ missing (Some any_key)
    (<[("T", "o") := (-25)%Z]> one_pair) ("T", "o")
  = Return (-25)%Z.
Proof.
  destruct (setitem_getitem missing (Some any_key) (Some any_value)
              one_pair (<[("T", "o") := (-25)%Z]> one_pair)
              ("T", "o") (-25)%Z eq_refl)
    as (k' & v' & Hk & Hv & _ & Hget & _).
  injection Hv as <-. exact Hget.
Defined.

Lemma delitem_witness :
  kerning.__delitem__ missing (Some any_key) one_pair ("A", "V")
  = Return (delete ("A", "V") one_pair).
Proof.
  apply (proj1 (delitem_spec missing (Some any_key) one_pair
                  ("A", "V") ("A", "V") eq_refl)).
  exists (-40)%Z. vm_compute. reflexivity.
Defined.

(** ** A line made a curve and a line again *)

Section SegmentRoundTrip.
Context {T : Type}.
Variable normalizeSegmentType : string -> result string.
Variable normalizePointType : string -> result string.
Variable segments : segment.World T -> list segment.BaseSegment.

Local Abbreviation World := (segment.World T).
Local Abbreviation set_type :=
  (segment._set_type normalizeSegmentType normalizePointType segments).

(** The point [pt] with another type. *)
Definition as_type (pt : segment.Point T) (t : string) : segment.Point T :=
  {| segment.x := segment.x pt; segment.y := segment.y pt;
     segment.type := t |}.

(** The world after a segment ending in [on] became a curve: two new
    off-curve points before [on], at position [j] of the contour. *)
Definition curved (w : World) (on : nat) (onPoint prevPoint : segment.Point T)
    (j : nat) (kind : string) : World :=
  {| segment.alive := segment.alive w;
     segment.objects :=
       <[on := as_type onPoint kind]>
         (segment.objects w ++ [offcurve_at onPoint; offcurve_at prevPoint])%list;
     segment.points :=
       (take j (segment.points w)
        ++ S (length (segment.objects w)) :: length (segment.objects w)
        :: drop j (segment.points w))%list |}.

Lemma not_curve_of_line (t kind : string) :
  t ∈ ["move"; "line"] -> kind ∈ ["curve"; "qcurve"] -> t <> kind.
Proof.
  intros Ht Hkind ->.
  repeat (apply elem_of_cons in Ht as [->|Ht]);
    try (apply elem_of_nil in Ht; contradiction);
    repeat (apply elem_of_cons in Hkind as [Hkind|Hkind]; [discriminate|]);
    apply elem_of_nil in Hkind; contradiction.
Qed.

Lemma to_curve (w : World) (self : segment.BaseSegment) (on : nat)
    (onPoint : segment.Point T) (oldType kind : string)
    (i j : nat) (this previous : segment.BaseSegment)
    (prevOffs : list nat) (prev : nat) (prevPoint : segment.Point T) :
  segment._points self = [on] ->
  segment.objects w !! on = Some onPoint ->
  segment._get_base_type normalizeSegmentType normalizePointType w self
  = Return oldType ->
  normalizePointType kind = Return kind ->
  oldType ∈ ["move"; "line"] -> kind ∈ ["curve"; "qcurve"] ->
  segment._get_contour (segment.alive w) self <> None ->
  segments w !! i = Some this -> segment.__eq__ this self = true ->
  Forall (fun s => segment.__eq__ s self = false) (take i (segments w)) ->
  segments w !! (if decide (i = O) then length (segments w) - 1
                 else i - 1)%nat = Some previous ->
  segment._points previous = (prevOffs ++ [prev])%list ->
  segment.objects w !! prev = Some prevPoint ->
  segment.points w !! j = Some on -> on ∉ take j (segment.points w) ->
  set_type w self kind
  = Return (curved w on onPoint prevPoint j kind,
            {| segment._contour := segment._contour self;
               segment._points := [S (length (segment.objects w));
                                   length (segment.objects w); on] |}).
Proof.
  intros Hpts Hon Hold Hnew HoldML HnewCQ Hsome Hthis Hself Hselffirst
    Hprevious Hprevpts Hprev Hj Hjfirst.
  destruct (onCurve_last self [] on Hpts) as [HonCurve _].
  destruct (segment._get_contour (segment.alive w) self) as [contour|] eqn:Hc;
    [clear Hsome|contradiction].
  unfold segment._set_type. rewrite Hold. simpl.
  rewrite decide_False by (apply not_curve_of_line; assumption). rewrite Hc.
  unfold sequences.contains.
  assert (HnotML : bool_decide (kind ∈ ["move"; "line"]) = false).
  { apply bool_decide_eq_false_2. intros Hin.
    exact (not_curve_of_line kind kind Hin HnewCQ eq_refl). }
  rewrite HnotML. simpl.
  rewrite (bool_decide_eq_true_2 _ HnewCQ). simpl.
  rewrite (index_by_first _ _ _ _ _ Hthis Hself Hselffirst). simpl.
  rewrite (getitem_previous _ _ _ Hprevious). simpl.
  destruct (onCurve_last previous prevOffs prev Hprevpts) as [Hprevon _].
  rewrite Hprevon, HonCurve. simpl.
  rewrite (the_point_Some w on onPoint Hon). cbn [mbind result_bind].
  rewrite (index_first _ _ _ Hj Hjfirst). cbn [mbind result_bind].
  assert (Hjlen : (j <= length (segment.points w))%nat).
  { apply lookup_lt_Some in Hj. lia. }
  rewrite (getitem_nat (sequences.insert_at j (length (segment.objects w))
                          (segment.points w)) j (length (segment.objects w)))
    by (apply insert_at_lookup, Hjlen).
  cbn [mbind result_bind].
  rewrite (the_point_Some _ prev prevPoint).
  2:{ simpl. apply lookup_app_l_Some, Hprev. }
  cbn [mbind result_bind].
  rewrite (getitem_nat _ j (length (segment.objects w ++ [offcurve_at onPoint]))).
  2:{ apply insert_at_lookup. unfold sequences.insert_at.
      rewrite length_app, length_take. simpl. rewrite length_drop. lia. }
  cbn [mbind result_bind mret result_ret fst snd].
  unfold segment._get_onCurve, segment._get_points.
  cbn [segment._points].
  assert (Hlast : forall a b : nat,
             sequences.getitem [a; b; on] (-1) = Return on)
    by (intros a b; apply (getitem_last [a; b] on)).
  rewrite Hlast.
  cbn [mbind result_bind].
  unfold segment.set_point_type. rewrite Hnew. cbn [mbind result_bind].
  rewrite (the_point_Some _ on onPoint).
  2:{ simpl. apply lookup_app_l_Some, lookup_app_l_Some, Hon. }
  cbn [mbind result_bind mret result_ret].
  unfold segment.insertPoint, curved, as_type. simpl.
  rewrite (insert_at_twice _ _ _ _ Hjlen).
  rewrite <- app_assoc, !length_app. simpl.
  replace (length (segment.objects w) + 1)%nat
    with (S (length (segment.objects w))) by lia.
  reflexivity.
Qed.

Lemma to_line (w : World) (self : segment.BaseSegment) (offs : list nat)
    (on : nat) (onPoint : segment.Point T) (kind newType : string) :
  segment._points self = (offs ++ [on])%list ->
  segment.objects w !! on = Some onPoint ->
  segment._get_base_type normalizeSegmentType normalizePointType w self
  = Return kind ->
  normalizePointType newType = Return newType ->
  newType ∈ ["move"; "line"] -> kind ∈ ["curve"; "qcurve"] ->
  segment._get_contour (segment.alive w) self <> None ->
  NoDup (segment.points w) -> NoDup offs ->
  (forall p, p ∈ offs -> p ∈ segment.points w) ->
  set_type w self newType
  = Return (retyped
              (with_points w (filter (fun p => p ∉ offs) (segment.points w)))
              on onPoint newType,
            self).
Proof.
  intros Hpts Hon Hold Hnew HnewML HoldCQ Hsome Hnd Hoffs Hsub.
  destruct (onCurve_last self offs on Hpts) as [HonCurve HoffCurve].
  destruct (segment._get_contour (segment.alive w) self) as [contour|] eqn:Hc;
    [clear Hsome|contradiction].
  unfold segment._set_type. rewrite Hold. simpl.
  rewrite decide_False
    by (intros Heq; exact (not_curve_of_line _ _ HnewML HoldCQ (eq_sym Heq))).
  rewrite Hc. unfold sequences.contains.
  assert (HoldML : bool_decide (kind ∈ ["move"; "line"]) = false).
  { apply bool_decide_eq_false_2. intros Hin.
    exact (not_curve_of_line kind kind Hin HoldCQ eq_refl). }
  assert (HnewCQ : bool_decide (newType ∈ ["curve"; "qcurve"]) = false).
  { apply bool_decide_eq_false_2. intros Hin.
    exact (not_curve_of_line newType newType HnewML Hin eq_refl). }
  rewrite HoldML, andb_false_r, HnewCQ. simpl.
  rewrite HoffCurve, (removePoints_filter segments offs w Hnd Hoffs Hsub). simpl.
  rewrite HonCurve. simpl.
  rewrite (set_point_type_retyped normalizePointType _ on onPoint newType Hnew);
    [reflexivity|].
  exact Hon.
Qed.

Lemma curved_points_NoDup (pts : list nat) (n j : nat) :
  NoDup pts -> Forall (fun p => p < n)%nat pts ->
  NoDup (take j pts ++ S n :: n :: drop j pts)%list.
Proof.
  intros Hnd Hold.
  assert (Hfresh : forall m, (n <= m)%nat -> m ∉ pts).
  { intros m Hm Hin. rewrite Forall_forall in Hold.
    specialize (Hold m Hin). lia. }
  rewrite <- (take_drop j pts) in Hnd, Hfresh.
  apply NoDup_app in Hnd as (Htake & Hdisj & Hdrop).
  apply NoDup_app. split; [exact Htake|]. split.
  - intros p Hp Hin.
    apply elem_of_cons in Hin as [->|Hin].
    { apply (Hfresh (S n)); [lia|]. apply elem_of_app. left. exact Hp. }
    apply elem_of_cons in Hin as [->|Hin].
    { apply (Hfresh n); [lia|]. apply elem_of_app. left. exact Hp. }
    exact (Hdisj p Hp Hin).
  - apply NoDup_cons. split.
    { intros Hin. apply elem_of_cons in Hin as [Heq|Hin]; [lia|].
      apply (Hfresh (S n)); [lia|]. apply elem_of_app. right. exact Hin. }
    apply NoDup_cons. split; [|exact Hdrop].
    intros Hin. apply (Hfresh n); [lia|]. apply elem_of_app. right. exact Hin.
Qed.

Lemma curved_points_filter (pts : list nat) (n j : nat) :
  Forall (fun p => p < n)%nat pts ->
  filter (fun p => p ∉ [S n; n]) (take j pts ++ S n :: n :: drop j pts)%list
  = pts.
Proof.
  intros Hold.
  assert (Hkeep : forall l, Forall (fun p => p < n)%nat l ->
                            filter (fun p => p ∉ [S n; n]) l = l).
  { intros l Hl. apply filter_all. eapply Forall_impl; [exact Hl|].
    intros p Hp Hin. simpl in Hp.
    apply elem_of_cons in Hin as [->|Hin]; [lia|].
    apply elem_of_cons in Hin as [->|Hin]; [lia|].
    apply elem_of_nil in Hin. exact Hin. }
  rewrite filter_app.
  rewrite filter_cons_False by (intros Hout; apply Hout; left).
  rewrite filter_cons_False by (intros Hout; apply Hout; right; left).
  rewrite !Hkeep by (first [apply Forall_take | apply Forall_drop]; exact Hold).
  apply take_drop.
Qed.

(** X18.  A "move" or "line" segment of a contour, made a "curve" or
    "qcurve" and then given its old type again, leaves the contour with
    the points it had, in their order: the two off-curve points made on
    the way are taken out of the contour again, and every point of the
    contour is what it was, the on-curve point with its old type.  The
    segment object itself is not set back: it still lists the two
    off-curve points that the contour no longer has. *)
Theorem line_curve_line (w : World) (self : segment.BaseSegment) (on : nat)
    (onPoint : segment.Point T) (oldType kind : string)
    (i : nat) (this previous : segment.BaseSegment)
    (prevOffs : list nat) (prev : nat) (prevPoint : segment.Point T) :
  segment._points self = [on] ->
  segment.objects w !! on = Some onPoint ->
  segment._get_base_type normalizeSegmentType normalizePointType w self
  = Return oldType ->
  oldType ∈ ["move"; "line"] -> kind ∈ ["curve"; "qcurve"] ->
  normalizePointType oldType = Return oldType ->
  normalizePointType kind = Return kind ->
  normalizeSegmentType kind = Return kind ->
  segment._get_contour (segment.alive w) self <> None ->
  segments w !! i = Some this -> segment.__eq__ this self = true ->
  Forall (fun s => segment.__eq__ s self = false) (take i (segments w)) ->
  segments w !! (if decide (i = O) then length (segments w) - 1
                 else i - 1)%nat = Some previous ->
  segment._points previous = (prevOffs ++ [prev])%list ->
  segment.objects w !! prev = Some prevPoint ->
  NoDup (segment.points w) ->
  Forall (fun p => p < length (segment.objects w))%nat (segment.points w) ->
  on ∈ segment.points w ->
  exists (w1 w2 : World) (s1 : segment.BaseSegment),
    set_type w self kind = Return (w1, s1) /\
    set_type w1 s1 oldType = Return (w2, s1) /\
    segment.points w2 = segment.points w /\
    segment.objects w2 !! on = Some (as_type onPoint oldType) /\
    (forall p, p ∈ segment.points w -> p <> on ->
               segment.objects w2 !! p = segment.objects w !! p) /\
    segment._points s1 = [S (length (segment.objects w));
                          length (segment.objects w); on] /\
    (S (length (segment.objects w)) ∉ segment.points w2) /\
    (length (segment.objects w) ∉ segment.points w2).
Proof.
  intros Hpts Hon Hold HoldML HkindCQ Hnold Hnkind Hskind Hsome
    Hthis Hself Hselffirst Hprevious Hprevpts Hprev Hnd Hstore Hin.
  destruct (index_elem_of (segment.points w) on Hin) as [j Hj].
  apply index_Return in Hj as [Hj Hjfirst].
  set (n := length (segment.objects w)).
  set (w1 := curved w on onPoint prevPoint j kind).
  set (s1 := {| segment._contour := segment._contour self;
                segment._points := [S n; n; on] |}).
  assert (Honlt : (on < n)%nat) by (apply lookup_lt_Some in Hon; exact Hon).
  assert (Hon1 : segment.objects w1 !! on = Some (as_type onPoint kind)).
  { unfold w1, curved. cbn [segment.objects].
    apply list_lookup_insert_eq. rewrite length_app. fold n. lia. }
  assert (Hfirst : set_type w self kind = Return (w1, s1)).
  { apply (to_curve w self on onPoint oldType kind i j this previous
             prevOffs prev prevPoint); assumption. }
  assert (Hsecond :
            set_type w1 s1 oldType
            = Return (retyped
                        (with_points w1
                           (filter (fun p => p ∉ [S n; n]) (segment.points w1)))
                        on (as_type onPoint kind) oldType,
                      s1)).
  { apply (to_line w1 s1 [S n; n] on (as_type onPoint kind) kind oldType).
    - reflexivity.
    - exact Hon1.
    - unfold segment._get_base_type, segment._get_type.
      replace (segment._get_onCurve s1) with (Return (A:=nat) on)
        by (symmetry; apply (getitem_last [S n; n] on)).
      cbn [mbind result_bind]. unfold segment.point_type.
      rewrite (the_point_Some w1 on _ Hon1). cbn [mbind result_bind].
      cbn [as_type segment.type]. rewrite Hnkind. cbn [mbind result_bind].
      exact Hskind.
    - exact Hnold.
    - exact HoldML.
    - exact HkindCQ.
    - exact Hsome.
    - unfold w1, curved. cbn [segment.points].
      apply curved_points_NoDup; assumption.
    - apply NoDup_cons. split.
      + intros Habs. apply list_elem_of_singleton in Habs. lia.
      + apply NoDup_singleton.
    - intros p Hp. unfold w1, curved. cbn [segment.points].
      apply elem_of_app. right.
      apply elem_of_cons in Hp as [->|Hp]; [left|].
      apply list_elem_of_singleton in Hp as ->. right. left. }
  assert (Hback : filter (fun p => p ∉ [S n; n]) (segment.points w1)
                  = segment.points w).
  { unfold w1, curved. cbn [segment.points].
    apply curved_points_filter. exact Hstore. }
  eexists w1, _, s1. split; [exact Hfirst|]. split; [exact Hsecond|].
  rewrite Hback.
  assert (Hfresh : forall m, (n <= m)%nat -> m ∉ segment.points w).
  { intros m Hm Hmin. rewrite Forall_forall in Hstore.
    specialize (Hstore m Hmin). fold n in Hstore. lia. }
  split; [reflexivity|]. split; [|split; [|split; [reflexivity|split]]].
  - unfold retyped, with_points. cbn [segment.objects].
    rewrite list_lookup_insert_eq; [reflexivity|].
    unfold w1, curved. cbn [segment.objects].
    rewrite length_insert, length_app. fold n. lia.
  - intros p Hp Hne. unfold retyped, with_points, w1, curved.
    cbn [segment.objects].
    rewrite !list_lookup_insert_ne by congruence.
    apply lookup_app_l. rewrite Forall_forall in Hstore. apply Hstore, Hp.
  - apply Hfresh. lia.
  - apply Hfresh. lia.
Qed.

End SegmentRoundTrip.

Lemma line_curve_line_witness :
  exists (w1 w2 : segment.World Z) (s1 : segment.BaseSegment),
    segment._set_type (fun t => mret t) (fun t => mret t) line_segments
      triangle second_line "curve" = Return (w1, s1) /\
    segment._set_type (fun t => mret t) (fun t => mret t) line_segments
      w1 s1 "line" = Return (w2, s1) /\
    segment.points w2 = [0%nat; 1%nat; 2%nat] /\
    segment._points s1 = [4%nat; 3%nat; 1%nat].
Proof.
  assert (Hold : "line" ∈ ["move"; "line"])
    by (apply elem_of_cons; right; apply elem_of_cons; left; reflexivity).
  assert (Hnew : "curve" ∈ ["curve"; "qcurve"])
    by (apply elem_of_cons; left; reflexivity).
  assert (Hcontour : segment._get_contour (segment.alive triangle) second_line
                     <> None) by (vm_compute; discriminate).
  assert (Htype : segment._get_base_type (fun t => mret t) (fun t => mret t)
                    triangle second_line = Return "line")
    by (vm_compute; reflexivity).
  assert (Hnd : NoDup (segment.points triangle)).
  { apply (bool_decide_unpack (NoDup [0%nat; 1%nat; 2%nat])).
    vm_compute. exact I. }
  assert (Hstore : Forall (fun p => p < length (segment.objects triangle))%nat
                     (segment.points triangle)).
  { simpl. repeat constructor. }
  assert (Hin : 1%nat ∈ segment.points triangle)
    by (apply elem_of_cons; right; apply elem_of_cons; left; reflexivity).
  destruct (line_curve_line (fun t => mret t) (fun t => mret t) line_segments
              triangle second_line 1%nat
              {| segment.x := 100; segment.y := 0; segment.type := "line" |}
              "line" "curve" 1%nat second_line
              {| segment._contour := Some (weakref.Ref 1%nat);
                 segment._points := [0%nat] |}
              [] 0%nat
              {| segment.x := 0; segment.y := 0; segment.type := "line" |}
              eq_refl eq_refl Htype Hold Hnew eq_refl eq_refl eq_refl
              Hcontour eq_refl eq_refl ltac:(repeat constructor)
              eq_refl eq_refl eq_refl Hnd Hstore Hin)
    as (w1 & w2 & s1 & Hfirst & Hsecond & Hpoints & _ & _ & Hstale & _).
  exists w1, w2, s1. repeat split; assumption.
Defined.
